(** * eventlog: nested-step logging and the debounce handler

    A shallow embedding of [src/etl_i2b2/eventlog.py]: the [EventLogger]
    adapter with its step stack, [TextFilter], [DebounceHandler] and the
    deterministic clock [MockIO].

    Python objects with mutable attributes become records that are passed
    through every method; a method that may raise returns a [result]
    together with the state it leaves behind, because in Python the
    mutations made before a [raise] stay visible to the caller.

    The wrapped [logging.Logger] is taken to be enabled for [INFO] and
    above, as the module's doctest sets it up: [logged] is then what the
    logger builds records from.  (For a disabled severity
    [LoggerAdapter.log] returns before anything is handed over.)

    The handler is modelled one call at a time: [emit], [flush], [start],
    [stop] and the firing of a timer each run to their end before the next
    one begins.  What two threads do to the queue in the middle of one
    another's call is outside this development. *)

From Stdlib Require Import ZArith List String Bool Lia Floats.
From Stdlib Require Import Sorted.
Import ListNotations.

Local Open Scope Z_scope.
Set Warnings "-register-all".

(** ** Exceptions and results *)

Inductive exn : Type :=
| IndexError
| ZeroDivisionError
| OverflowError
| ValueError
| KeyError
| Empty                      (* queue.Empty *)
| AppError (name : string).  (* any exception raised by application code *)

(** [Blocks] stands for a call that does not return: a blocking [Queue]
    call that nothing will wake up in a sequential run (a [put] on a full
    queue, a [get] on an empty one), or a loop that has not ended when its
    fuel is spent. *)
Inductive result (A : Type) : Type :=
| Ok (a : A)
| Raise (e : exn)
| Blocks.

Arguments Ok {A} a.
Arguments Raise {A} e.
Arguments Blocks {A}.

Definition bind {A B : Type} (r : result A) (k : A -> result B) : result B :=
  match r with
  | Ok a => k a
  | Raise e => Raise e
  | Blocks => Blocks
  end.

Notation "'let*' x ':=' r 'in' k" := (bind r (fun x => k))
  (at level 10, x pattern, r at level 100, k at level 200).

(** ** datetime and timedelta

    Both have microsecond resolution.  A [timedelta] is its total number
    of microseconds; a naive [datetime] is the number of microseconds
    since the start of proleptic ordinal day 0, so that
    [0001-01-01T00:00:00] is [86400 * 10^6]. *)

Definition timedelta : Type := Z.
Definition datetime : Type := Z.

Definition us_per_second : Z := 1000000.
Definition us_per_day : Z := 86400 * us_per_second.

Definition _MAXORDINAL : Z := 3652059.  (* date(9999, 12, 31).toordinal() *)
Definition _MAXDAYS : Z := 999999999.   (* timedelta.max.days *)

Definition _is_leap (year : Z) : bool :=
  (year mod 4 =? 0) && (negb (year mod 100 =? 0) || (year mod 400 =? 0)).

Definition _days_before_year (year : Z) : Z :=
  let y := year - 1 in y * 365 + y / 4 - y / 100 + y / 400.

Definition _DAYS_IN_MONTH : list Z :=
  [31; 28; 31; 30; 31; 30; 31; 31; 30; 31; 30; 31].

Definition _days_in_month (year month : Z) : Z :=
  if (month =? 2) && _is_leap year then 29
  else nth (Z.to_nat (month - 1)) _DAYS_IN_MONTH 0.

Definition _days_before_month (year month : Z) : Z :=
  fold_right Z.add 0 (firstn (Z.to_nat (month - 1)) _DAYS_IN_MONTH)
  + (if (2 <? month) && _is_leap year then 1 else 0).

Definition _ymd2ord (year month day : Z) : Z :=
  _days_before_year year + _days_before_month year month + day.

Definition in_range (lo x hi : Z) : bool := (lo <=? x) && (x <=? hi).

(** [datetime(year, month, day, hour, minute, second)]: field checks raise
    [ValueError]. *)
Definition mk_datetime (year month day hour minute second : Z)
  : result datetime :=
  if in_range 1 year 9999 && in_range 1 month 12
     && in_range 1 day (_days_in_month year month)
     && in_range 0 hour 23 && in_range 0 minute 59 && in_range 0 second 59
  then Ok (_ymd2ord year month day * us_per_day
           + ((hour * 60 + minute) * 60 + second) * us_per_second)
  else Raise ValueError.

(** A [datetime] literal; [0] stands for fields out of range. *)
Definition ymd_hms (year month day hour minute second : Z) : datetime :=
  match mk_datetime year month day hour minute second with
  | Ok d => d
  | _ => 0
  end.

(** The [timedelta] constructor normalises and rejects more than
    [999999999] days either way. *)
Definition mk_timedelta (microseconds : Z) : result timedelta :=
  if in_range (- _MAXDAYS) (microseconds / us_per_day) _MAXDAYS
  then Ok microseconds else Raise OverflowError.

Definition td_seconds (seconds : Z) : result timedelta :=
  mk_timedelta (seconds * us_per_second).

(** [datetime - datetime] is always representable. *)
Definition dt_sub (a b : datetime) : timedelta := a - b.

(** [datetime + timedelta]: the sum is built as a [timedelta] counted from
    ordinal 0 and must land on a day in [1 .. _MAXORDINAL]. *)
Definition dt_add (a : datetime) (d : timedelta) : result datetime :=
  let* delta := mk_timedelta (a + d) in
  if in_range 1 (delta / us_per_day) _MAXORDINAL
  then Ok delta else Raise OverflowError.

(** ** Python floats (binary64) *)

Definition py_float_of_SF (x : spec_float) : float := SF2Prim x.

(** [a / b] on floats raises on a zero divisor of either sign and is the
    IEEE quotient otherwise (an overflow silently gives an infinity). *)
Definition float_truediv (a b : float) : result float :=
  if PrimFloat.eqb b 0%float then Raise ZeroDivisionError
  else Ok (PrimFloat.div a b).

(** [float.as_integer_ratio]: lowest terms, positive denominator. *)
Definition as_integer_ratio (f : float) : result (Z * Z) :=
  match Prim2SF f with
  | S754_nan => Raise ValueError
  | S754_infinity _ => Raise OverflowError
  | S754_zero _ => Ok (0, 1)
  | S754_finite s m e =>
      let mz := if s then Z.neg m else Z.pos m in
      let '(a, b) := if 0 <=? e then (mz * 2 ^ e, 1) else (mz, 2 ^ (- e)) in
      let g := Z.gcd a b in
      Ok (a / g, b / g)
  end.

(** [_divide_and_round a b] for [b > 0]: nearest integer to [a / b], ties
    to even. *)
Definition _divide_and_round (a b : Z) : Z :=
  let q := a / b in
  let r := 2 * (a mod b) in
  let greater_than_half := if 0 <? b then b <? r else r <? b in
  if greater_than_half || ((r =? b) && (q mod 2 =? 1)) then q + 1 else q.

(** [timedelta * float] *)
Definition td_mul_float (d : timedelta) (f : float) : result timedelta :=
  let* ab := as_integer_ratio f in
  mk_timedelta (_divide_and_round (d * fst ab) (snd ab)).

(** [int / int] true division, correctly rounded; only used with the
    non-zero divisor [10 ** 6]. *)
Definition int_truediv (a b : Z) : float :=
  let sf (x : Z) :=
    match x with
    | Z0 => S754_zero false
    | Zpos p => S754_finite false p 0
    | Zneg p => S754_finite true p 0
    end in
  py_float_of_SF (SFdiv prec emax (sf a) (sf b)).

(** [int(f)]: truncation towards zero.  Python raises on a nan or an
    infinity; the only caller passes [total_seconds() * 1000000] of a
    [timedelta], which is finite for every value Python can build (at most
    [999999999] days), so those branches are never taken there. *)
Definition int_of_float (f : float) : Z :=
  match Prim2SF f with
  | S754_finite s m e =>
      let q := if 0 <=? e then Z.pos m * 2 ^ e else Z.pos m / 2 ^ (- e) in
      if s then - q else q
  | _ => 0
  end.

(** [timedelta.total_seconds()] *)
Definition total_seconds (d : timedelta) : float := int_truediv d (10 ^ 6).

(** ** Python values carried by log records *)

Inductive pyval : Type :=
| VNone
| VInt (n : Z)
| VStr (s : string)
| VStrDatetime (d : datetime)     (* str(d) of a datetime *)
| VStrTimedelta (d : timedelta)   (* str(d) of a timedelta *)
| VList (l : list pyval)
| VTuple (l : list pyval)
| VDict (d : list (string * pyval)).

(** A [dict] with string keys, in insertion order. *)
Definition dict : Type := list (string * pyval).

Fixpoint dict_get (k : string) (d : dict) : option pyval :=
  match d with
  | [] => None
  | (k', v) :: d' => if String.eqb k k' then Some v else dict_get k d'
  end.

(** [d[k] = v]: overwrite in place, or append a new key. *)
Fixpoint dict_set (k : string) (v : pyval) (d : dict) : dict :=
  match d with
  | [] => [(k, v)]
  | (k', v') :: d' =>
      if String.eqb k k' then (k', v) :: d' else (k', v') :: dict_set k v d'
  end.

(** [dict(d, k1=v1, k2=v2, ...)]: a copy of [d] updated with the keywords. *)
Definition dict_with (d : dict) (kw : list (string * pyval)) : dict :=
  fold_left (fun acc kv => dict_set (fst kv) (snd kv) acc) kw d.

(** Severities of the [logging] module. *)
Definition INFO : Z := 20.
Definition WARN : Z := 30.
Definition ERROR : Z := 40.

(** What a [log(level, msg, args, extra=...)] call hands over, which is
    what a [logging.LogRecord] is made of. *)
Record LogRecord : Type := mkLogRecord {
  levelno : Z;
  msg : string;
  args : dict;
  extra_of : dict
}.

(** [Logger.makeRecord] copies the entries of [extra] into the record it
    builds and raises [KeyError] for a key that would overwrite
    [message], [asctime] or an attribute the record already has.  These
    are the attributes [LogRecord.__init__] sets (CPython 3.11; later
    versions add [taskName]). *)
Definition reserved_keys : list string :=
  ["message"; "asctime"; "name"; "msg"; "args"; "levelname"; "levelno";
   "pathname"; "filename"; "module"; "exc_info"; "exc_text"; "stack_info";
   "lineno"; "funcName"; "created"; "msecs"; "relativeCreated"; "thread";
   "threadName"; "processName"; "process"]%string.

Definition reserved (k : string) : bool :=
  existsb (String.eqb k) reserved_keys.

(** Does [makeRecord] refuse this [extra]? *)
Definition refused (ex : dict) : bool :=
  existsb (fun kv => reserved (fst kv)) ex.

(** [extra or {}]: an empty dictionary is falsy, like [None]. *)
Definition or_empty (ex : option dict) : dict :=
  match ex with
  | Some ((_ :: _) as d) => d
  | _ => []
  end.

(** *** Reading step records back

    What a sink sees of a step in a record: the keyword [do] ([begin] or
    [end]) and the breadcrumb under the argument [step]. *)

Fixpoint ints (l : list pyval) : list Z :=
  match l with
  | [] => []
  | VInt n :: l' => n :: ints l'
  | _ :: l' => ints l'
  end.

Definition breadcrumb (r : LogRecord) : list Z :=
  match dict_get "step" (args r) with
  | Some (VList l) => ints l
  | _ => []
  end.

Definition has_do (what : string) (r : LogRecord) : bool :=
  match dict_get "do" (extra_of r) with
  | Some (VStr s) => String.eqb s what
  | _ => false
  end.

Definition is_begin : LogRecord -> bool := has_do "begin".
Definition is_end : LogRecord -> bool := has_do "end".

(** The sequence numbers handed out, as the begin records show them: the
    last entry of each begin record's breadcrumb, in emission order. *)
Fixpoint assigned (rs : list LogRecord) : list Z :=
  match rs with
  | [] => []
  | r :: rs' =>
      if is_begin r then last (breadcrumb r) 0 :: assigned rs'
      else assigned rs'
  end.



(** ** Indexing Python lists *)

Definition py_first {A : Type} (l : list A) : result A :=
  match l with
  | [] => Raise IndexError
  | x :: _ => Ok x
  end.

Fixpoint py_last {A : Type} (l : list A) : result A :=
  match l with
  | [] => Raise IndexError
  | [x] => Ok x
  | _ :: l' => py_last l'
  end.

(** [l.pop()]: the list without its last element. *)
Definition py_pop {A : Type} (l : list A) : result (list A) :=
  match l with
  | [] => Raise IndexError
  | _ => Ok (removelast l)
  end.

(** ** EventLogger *)

Module EventLogger.

(** The handle a step scope yields.  The three fields are the very
    objects the generator keeps using after the [yield], so what the body
    does to them shows in the completion record. *)
Record LogState : Type := mkLogState {
  msg_parts : list string;
  argobj : dict;
  extra : dict
}.

Section WithClock.

(** The clock is any callable returning a [datetime]; [K] is whatever
    state it keeps between calls.  It may raise like any callable. *)
Context {K : Type}.
Variable clock : K -> result datetime * K.

(** [logged] holds what the wrapped [logging.Logger] has made records
    of, oldest first: severity, message, arguments and [extra] of each
    [log] call that got through. *)
Record t : Type := mk {
  name : string;
  event : dict;
  _clock : K;
  _seq : Z;
  _step : list (Z * datetime);
  logged : list LogRecord
}.

(** [EventLogger(logger, event, clock)] *)
Definition __init__ (logger_name : string) (ev : dict) (k : K) : t :=
  {| name := logger_name; event := ev; _clock := k;
     _seq := 0; _step := []; logged := [] |}.

Definition set_clock (lg : t) (k : K) : t :=
  {| name := name lg; event := event lg; _clock := k;
     _seq := _seq lg; _step := _step lg; logged := logged lg |}.

Definition set_seq (lg : t) (n : Z) : t :=
  {| name := name lg; event := event lg; _clock := _clock lg;
     _seq := n; _step := _step lg; logged := logged lg |}.

Definition set_step (lg : t) (st : list (Z * datetime)) : t :=
  {| name := name lg; event := event lg; _clock := _clock lg;
     _seq := _seq lg; _step := st; logged := logged lg |}.

Definition add_logged (lg : t) (r : LogRecord) : t :=
  {| name := name lg; event := event lg; _clock := _clock lg;
     _seq := _seq lg; _step := _step lg; logged := logged lg ++ [r] |}.

(** [self._clock()] *)
Definition call_clock (lg : t) : result datetime * t :=
  let '(r, k) := clock (_clock lg) in (r, set_clock lg k).

(** [process]: the keyword [extra] gains the logger's context. *)
Definition process (lg : t) (kw_extra : dict) : dict :=
  dict_with kw_extra [("context"%string, VDict (event lg))].

(** [self.log(level, msg, args, extra=kw_extra)]: [process], then the
    wrapped logger's [makeRecord], which raises [KeyError] before any
    handler has seen the record. *)
Definition log (lg : t) (level : Z) (m : string) (a : dict) (kw_extra : dict)
  : result unit * t :=
  let ex := process lg kw_extra in
  if refused ex then (Raise KeyError, lg)
  else (Ok tt,
        add_logged lg
          {| levelno := level; msg := m; args := a; extra_of := ex |}).

Definition info (lg : t) (m : string) (a : dict) (kw_extra : dict)
  : result unit * t :=
  log lg INFO m a kw_extra.

(** [elapsed(then=None)]: a [datetime] is always truthy, so
    [then or self._step[-1][1]] indexes the stack exactly when no
    reference is given. *)
Definition elapsed (then_ : option datetime) (lg : t)
  : result (datetime * timedelta * Z) * t :=
  match (match then_ with
         | Some d => Ok d
         | None => let* fr := py_last (_step lg) in Ok (snd fr)
         end) with
  | Ok start =>
      match call_clock lg with
      | (Ok now, lg1) =>
          let el := dt_sub now start in
          let ms := int_of_float (PrimFloat.mul (total_seconds el) 1000000) in
          (Ok (start, el, ms), lg1)
      | (Raise e, lg1) => (Raise e, lg1)
      | (Blocks, lg1) => (Blocks, lg1)
      end
  | Raise e => (Raise e, lg)
  | Blocks => (Blocks, lg)
  end.

(** [eta(pct)] *)
Definition eta (pct : float) (lg : t) : result datetime * t :=
  match py_first (_step lg) with
  | Ok (_, t0) =>
      match call_clock lg with
      | (Ok now, lg1) =>
          let el := dt_sub now t0 in
          (let* d := float_truediv pct 100 in
           let* f := float_truediv 1 d in
           let* x := td_mul_float el f in
           dt_add t0 x, lg1)
      | (Raise e, lg1) => (Raise e, lg1)
      | (Blocks, lg1) => (Blocks, lg1)
      end
  | Raise e => (Raise e, lg)
  | Blocks => (Blocks, lg)
  end.

Definition fmt_step : string := "%(t_step)s %(step)s ".

(** The locals of the [step] generator that are alive across its [yield]
    and are not part of the yielded handle. *)
Record frame : Type := mkFrame {
  checkpoint : datetime;
  step_ixs : list Z
}.

Definition elapsed_begin (c : datetime) : pyval :=
  VTuple [VStrDatetime c; VNone; VNone].

Definition elapsed_end (el : datetime * timedelta * Z) : pyval :=
  let '(start, d, ms) := el in
  VTuple [VStrDatetime start; VStrTimedelta d; VInt ms].

(** [step]: the part before the [yield].  The [info] call comes before
    the [try:], so when it raises the frame just pushed stays on the
    stack. *)
Definition step_enter (m : string) (a : dict) (ex : option dict) (lg : t)
  : result (frame * LogState) * t :=
  match call_clock lg with
  | (Ok cp, lg1) =>
      let lg2 := set_seq lg1 (_seq lg1 + 1) in
      let lg3 := set_step lg2 (_step lg2 ++ [(_seq lg2, cp)]) in
      let ex' := or_empty ex in
      let ixs := map fst (_step lg3) in
      match py_first (_step lg3) with
      | Ok (_, t0) =>
          let t_step := VStrTimedelta (dt_sub cp t0) in
          match info lg3 (fmt_step ++ m ++ "...")
                  (dict_with a [("step"%string, VList (map VInt ixs));
                                ("t_step"%string, t_step)])
                  (dict_with ex' [("do"%string, VStr "begin");
                                  ("elapsed"%string, elapsed_begin cp)]) with
          | (Ok _, lg4) =>
              (Ok ({| checkpoint := cp; step_ixs := ixs |},
                   {| msg_parts := [m]; argobj := a; extra := ex' |}), lg4)
          | (Raise e, lg4) => (Raise e, lg4)
          | (Blocks, lg4) => (Blocks, lg4)
          end
      | Raise e => (Raise e, lg3)
      | Blocks => (Blocks, lg3)
      end
  | (Raise e, lg1) => (Raise e, lg1)
  | (Blocks, lg1) => (Blocks, lg1)
  end.

(** [step]: what runs when the scope is left.  [thrown] is the exception
    the body raised, if any: the bare [except:] records the error
    severity and re-raises it, and the [finally:] block runs on both
    paths.  An exception raised inside [finally:], by the clock or by the
    [log] call, takes the place of the body's and skips the [pop]. *)
Definition step_exit (fr : frame) (st : LogState) (thrown : option exn)
    (lg : t) : result unit * t :=
  let outcome := match thrown with Some _ => ERROR | None => INFO end in
  match elapsed (Some (checkpoint fr)) lg with
  | (Ok el, lg1) =>
      match log lg1 outcome
              (String.concat "" (fmt_step :: msg_parts st) ++ ".")
              (dict_with (argobj st)
                 [("step"%string, VList (map VInt (step_ixs fr)));
                  ("t_step"%string, VStrTimedelta (snd (fst el)))])
              (dict_with (extra st) [("do"%string, VStr "end");
                                     ("elapsed"%string, elapsed_end el)]) with
      | (Ok _, lg2) =>
          match py_pop (_step lg2) with
          | Ok st' =>
              (match thrown with Some e => Raise e | None => Ok tt end,
               set_step lg2 st')
          | Raise e => (Raise e, lg2)
          | Blocks => (Blocks, lg2)
          end
      | (Raise e, lg2) => (Raise e, lg2)
      | (Blocks, lg2) => (Blocks, lg2)
      end
  | (Raise e, lg1) => (Raise e, lg1)
  | (Blocks, lg1) => (Blocks, lg1)
  end.

(** *** Application code around the logger

    The callers of [step] are programs: they nest scopes, raise, catch,
    enrich the yielded handle and ask for [elapsed] and [eta].  [cmd] is
    the syntax of such callers and [exec] runs one against the logger, with
    [h] the handle of the innermost enclosing scope. *)
Inductive cmd : Type :=
| Pass
| Seq (c1 c2 : cmd)
| RaiseExn (e : exn)
| TryExcept (c handler : cmd)     (* try: c / except: handler *)
| WithStep (m : string) (a : dict) (ex : option dict) (body : cmd)
                                  (* with lg.step(m, a, ex) as info: body *)
| AppendMsg (s : string)          (* info.msg_parts.append(s) *)
| SetArg (k : string) (v : pyval) (* info.argobj[k] = v *)
| CallElapsed (then_ : option datetime)
| CallEta (pct : float).

Definition thrown_of (r : result unit) : option exn :=
  match r with
  | Raise e => Some e
  | _ => None
  end.

Definition drop_value {A : Type} (r : result A) : result unit :=
  match r with
  | Ok _ => Ok tt
  | Raise e => Raise e
  | Blocks => Blocks
  end.

Fixpoint exec (c : cmd) (h : LogState) (lg : t)
  : result unit * LogState * t :=
  match c with
  | Pass => (Ok tt, h, lg)
  | Seq c1 c2 =>
      match exec c1 h lg with
      | (Ok _, h1, lg1) => exec c2 h1 lg1
      | other => other
      end
  | RaiseExn e => (Raise e, h, lg)
  | TryExcept c1 handler =>
      match exec c1 h lg with
      | (Raise _, h1, lg1) => exec handler h1 lg1
      | other => other
      end
  | WithStep m a ex body =>
      match step_enter m a ex lg with
      | (Ok (fr, st), lg1) =>
          match exec body st lg1 with
          | (Blocks, _, lg2) => (Blocks, h, lg2)
          | (r, st', lg2) =>
              let '(r', lg3) := step_exit fr st' (thrown_of r) lg2 in
              (r', h, lg3)
          end
      | (Raise e, lg1) => (Raise e, h, lg1)
      | (Blocks, lg1) => (Blocks, h, lg1)
      end
  | AppendMsg s =>
      (Ok tt,
       {| msg_parts := msg_parts h ++ [s]; argobj := argobj h;
          extra := extra h |}, lg)
  | SetArg k v =>
      (Ok tt,
       {| msg_parts := msg_parts h; argobj := dict_set k v (argobj h);
          extra := extra h |}, lg)
  | CallElapsed then_ =>
      let '(r, lg1) := elapsed then_ lg in (drop_value r, h, lg1)
  | CallEta pct =>
      let '(r, lg1) := eta pct lg in (drop_value r, h, lg1)
  end.

End WithClock.

Arguments t K : clear implicits.

End EventLogger.

(** No scope of the program passes an [extra] that [makeRecord]
    refuses. *)
Fixpoint plain (c : EventLogger.cmd) : bool :=
  match c with
  | EventLogger.Seq c1 c2 => plain c1 && plain c2
  | EventLogger.TryExcept c1 handler => plain c1 && plain handler
  | EventLogger.WithStep _ _ ex body =>
      negb (refused (or_empty ex)) && plain body
  | _ => true
  end.

(** A clock stopped at [now]: every call returns. *)
Definition stopped_clock (now : datetime) (k : unit)
  : result datetime * unit :=
  (Ok now, k).

(** A clock that answers its first call only. *)
Definition one_shot_clock (now : datetime) (calls : nat)
  : result datetime * nat :=
  match calls with
  | O => (Ok now, S calls)
  | S _ => (Raise OverflowError, S calls)
  end.

(** ** MockIO: the deterministic clock *)

Module MockIO.

Record t : Type := mk {
  _now : datetime;
  _delta : Z
}.

(** The default argument [datetime(2000, 1, 1, 12, 30, 0)]. *)
Definition default_now : datetime :=
  Eval vm_compute in
    match mk_datetime 2000 1 1 12 30 0 with
    | Ok d => d
    | _ => 0
    end.

Definition __init__ (now : datetime) : t := {| _now := now; _delta := 1 |}.

Definition clock (io : t) : result datetime * t :=
  match (let* d := td_seconds (_delta io) in dt_add (_now io) d) with
  | Ok n => (Ok n, {| _now := n; _delta := _delta io + 1 |})
  | Raise e => (Raise e, io)
  | Blocks => (Blocks, io)
  end.

End MockIO.

(** ** TextFilter and TextHandler *)

Module TextFilter.

Section Rendering.

(** [record.getMessage()], the rendered message; the [%]-formatting
    behind it belongs to the [logging] library. *)
Variable getMessage : LogRecord -> string.

Record t : Type := mk { skips : list string }.

(** The [for] loop of [filter], on the skips still to be tried. *)
Fixpoint filter_loop (todo : list string) (record : LogRecord) : bool :=
  match todo with
  | [] => true
  | skip :: rest =>
      if String.prefix skip (getMessage record) then false
      else filter_loop rest record
  end.

Definition filter (f : t) (record : LogRecord) : bool :=
  filter_loop (skips f) record.

End Rendering.

End TextFilter.

Module TextHandler.

Section Rendering.

Variable getMessage : LogRecord -> string.

(** A [StreamHandler] with one [TextFilter]; [stream] is what has been
    written so far, one rendered record per entry. *)
Record t : Type := mk {
  filters : list TextFilter.t;
  stream : list string
}.

Definition __init__ (stream0 : list string) (skips : list string) : t :=
  {| filters := [TextFilter.mk skips]; stream := stream0 |}.

(** [Filterer.filter]: the record passes when every filter accepts it. *)
Definition passes (h : t) (record : LogRecord) : bool :=
  forallb (fun f => TextFilter.filter getMessage f record) (filters h).

Definition emit (h : t) (record : LogRecord) : t :=
  {| filters := filters h; stream := stream h ++ [getMessage record] |}.

(** [Handler.handle]: emit only what the filters let through. *)
Definition handle (h : t) (record : LogRecord) : bool * t :=
  if passes h record then (true, emit h record) else (false, h).

End Rendering.

End TextHandler.

(** ** queue.Queue, as one thread sees it *)

Module Queue.

Record t (A : Type) : Type := mk {
  maxsize : Z;
  items : list A      (* oldest first *)
}.

Arguments mk {A} maxsize items.
Arguments maxsize {A} _.
Arguments items {A} _.

Definition qsize {A : Type} (q : t A) : Z := Z.of_nat (List.length (items q)).

Definition empty {A : Type} (q : t A) : bool := qsize q =? 0.

(** [0 < maxsize <= qsize]: a queue built with [maxsize <= 0] is never
    full. *)
Definition full {A : Type} (q : t A) : bool :=
  (0 <? maxsize q) && (maxsize q <=? qsize q).

(** [get(block=False)] *)
Definition get_nowait {A : Type} (q : t A) : result (A * t A) :=
  match items q with
  | [] => Raise Empty
  | x :: rest => Ok (x, mk (maxsize q) rest)
  end.

(** [get()] waits for an item. *)
Definition get {A : Type} (q : t A) : result (A * t A) :=
  match items q with
  | [] => Blocks
  | x :: rest => Ok (x, mk (maxsize q) rest)
  end.

(** [put(x)] waits for a free slot. *)
Definition put {A : Type} (x : A) (q : t A) : result (t A) :=
  if (0 <? maxsize q) && (maxsize q <=? qsize q) then Blocks
  else Ok (mk (maxsize q) (items q ++ [x])).

End Queue.

(** ** DebounceHandler *)

Module DebounceHandler.

(** A [threading.Timer] once started: it waits, until it is cancelled or
    fires. *)
Inductive timer_state : Type := Waiting | Cancelled | Fired.

Record Timer : Type := mkTimer {
  t_interval : float;
  t_state : timer_state
}.

(** [timers] holds every [Timer] the handler has created, in creation
    order; a reference to a timer is its position there.  [handled] is
    what the target handler has been given, oldest first. *)
Record t : Type := mk {
  handled : list LogRecord;
  buffer : Queue.t LogRecord;
  interval : float;
  flushLevel : Z;
  _timer : option nat;
  timers : list Timer
}.

Definition set_buffer (h : t) (q : Queue.t LogRecord) : t :=
  {| handled := handled h; buffer := q; interval := interval h;
     flushLevel := flushLevel h; _timer := _timer h; timers := timers h |}.

Definition set_timer (h : t) (r : option nat) : t :=
  {| handled := handled h; buffer := buffer h; interval := interval h;
     flushLevel := flushLevel h; _timer := r; timers := timers h |}.

Definition set_timers (h : t) (ts : list Timer) : t :=
  {| handled := handled h; buffer := buffer h; interval := interval h;
     flushLevel := flushLevel h; _timer := _timer h; timers := ts |}.

(** [self.target.handle(record)] *)
Definition target_handle (h : t) (record : LogRecord) : t :=
  {| handled := handled h ++ [record]; buffer := buffer h;
     interval := interval h; flushLevel := flushLevel h;
     _timer := _timer h; timers := timers h |}.

(** [Timer.cancel()]: stops a timer that is still waiting. *)
Definition cancel_timer (tm : Timer) : Timer :=
  match t_state tm with
  | Waiting => {| t_interval := t_interval tm; t_state := Cancelled |}
  | _ => tm
  end.

Fixpoint update_nth {A : Type} (n : nat) (f : A -> A) (l : list A)
  {struct l} : list A :=
  match l, n with
  | [], _ => []
  | x :: l', O => f x :: l'
  | x :: l', S n' => x :: update_nth n' f l'
  end.

Definition cancel (id : nat) (h : t) : t :=
  set_timers h (update_nth id cancel_timer (timers h)).

(** [start]: a new timer is created, remembered and started. *)
Definition start (h : t) : t :=
  let id := List.length (timers h) in
  set_timer
    (set_timers h
       (timers h ++ [{| t_interval := interval h; t_state := Waiting |}]))
    (Some id).

(** The [while] loop of [flush]; each unit of [fuel] pays for one
    iteration, and running out of it gives no result. *)
Fixpoint flush_loop (fuel : nat) (h : t) : result t :=
  if Queue.empty (buffer h) then Ok h
  else
    match fuel with
    | O => Blocks
    | S fuel' =>
        match Queue.get (buffer h) with
        | Ok (record, q) =>
            flush_loop fuel' (target_handle (set_buffer h q) record)
        | Raise Empty => flush_loop fuel' h      (* except Empty: pass *)
        | Raise e => Raise e
        | Blocks => Blocks
        end
    end.

Definition flush (h : t) : result t :=
  flush_loop (List.length (Queue.items (buffer h))) h.

(** [DebounceHandler(capacity, interval, flushLevel, target)]; [handled0]
    is what the target has already been given. *)
Definition __init__ (capacity : Z) (interval0 : float) (flushLevel0 : Z)
    (handled0 : list LogRecord) : t :=
  start {| handled := handled0; buffer := Queue.mk capacity [];
           interval := interval0; flushLevel := flushLevel0;
           _timer := None; timers := [] |}.

Definition stop (h : t) : result t :=
  let h1 :=
    match _timer h with
    | Some id => set_timer (cancel id h) None
    | None => h
    end in
  flush h1.

Definition emit (record : LogRecord) (h : t) : result t :=
  let h1 :=
    match _timer h with
    | Some id => cancel id h
    | None => h
    end in
  let* h2 :=
    (if Queue.full (buffer h1)
     then let* xq := Queue.get_nowait (buffer h1) in
          Ok (set_buffer h1 (snd xq))
     else Ok h1) in
  let* q := Queue.put record (buffer h2) in
  let h3 := set_buffer h2 q in
  if flushLevel h3 <=? levelno record then flush h3 else Ok (start h3).

(** The timer thread, when timer [id] runs out: a timer that is still
    waiting calls [flush]. *)
Definition fire (id : nat) (h : t) : result t :=
  match nth_error (timers h) id with
  | Some {| t_interval := i; t_state := Waiting |} =>
      flush (set_timers h
               (update_nth id
                  (fun _ => {| t_interval := i; t_state := Fired |})
                  (timers h)))
  | _ => Ok h
  end.

(** What can happen to a handler, one call at a time. *)
Inductive op : Type :=
| Emit (record : LogRecord)
| Flush
| Start
| Stop
| Fire (id : nat).

Definition apply_op (o : op) (h : t) : result t :=
  match o with
  | Emit record => emit record h
  | Flush => flush h
  | Start => Ok (start h)
  | Stop => stop h
  | Fire id => fire id h
  end.

Fixpoint run (ops : list op) (h : t) : result t :=
  match ops with
  | [] => Ok h
  | o :: rest => let* h' := apply_op o h in run rest h'
  end.

(** *** States of a handler *)

(** A bounded queue holds no more than its [maxsize]. *)
Definition bounded (h : t) : Prop :=
  0 < Queue.maxsize (buffer h) ->
  Queue.qsize (buffer h) <= Queue.maxsize (buffer h).

(** The only timer that may still be waiting is the one [_timer] refers
    to. *)
Definition single_waiting (h : t) : Prop :=
  forall id tm,
    nth_error (timers h) id = Some tm -> t_state tm = Waiting ->
    _timer h = Some id.

Definition not_waiting (tm : Timer) : Prop := t_state tm <> Waiting.

(** The handler once its buffer has been forwarded to the target. *)
Definition drained (h : t) : t :=
  {| handled := handled h ++ Queue.items (buffer h);
     buffer := Queue.mk (Queue.maxsize (buffer h)) [];
     interval := interval h; flushLevel := flushLevel h;
     _timer := _timer h; timers := timers h |}.

(** What [emit] leaves of the buffer before it appends: everything, or
    everything but the oldest record when the queue is full. *)
Definition kept (h : t) : list LogRecord :=
  if Queue.full (buffer h) then tl (Queue.items (buffer h))
  else Queue.items (buffer h).

(** The timers after the [cancel] at the head of [emit] and [stop]. *)
Definition after_cancel (h : t) : list Timer :=
  match _timer h with
  | Some id => update_nth id cancel_timer (timers h)
  | None => timers h
  end.

(** Calls other than a direct [start]. *)
Definition not_start (o : op) : bool :=
  match o with
  | Start => false
  | _ => true
  end.

End DebounceHandler.

(** ** Sample records and handlers *)

Module Samples.

Definition record (level : Z) (text : string) : LogRecord :=
  {| levelno := level; msg := text; args := []; extra_of := [] |}.

(** [DebounceHandler(capacity=2)] with its defaults: half a second,
    [flushLevel=WARN]. *)
Definition debounce2 : DebounceHandler.t :=
  DebounceHandler.__init__ 2 0.5%float WARN [].

End Samples.

(** ** The factor of [eta] *)

(** [1 / (pct / 100)], the factor [eta] multiplies the elapsed time by. *)
Definition eta_factor (pct : float) : result float :=
  let* d := float_truediv pct 100 in float_truediv 1 d.

(** Percentages [pct] paired with [100 / pct] where that is a whole
    number. *)
Definition whole_factors : list (float * Z) :=
  [(1%float, 100); (2%float, 50); (4%float, 25); (5%float, 20);
   (10%float, 10); (20%float, 5); (25%float, 4); (50%float, 2);
   (100%float, 1)].

(** ** The module's doctest *)

Module Doctest.

Import EventLogger.
Local Open Scope string_scope.

(** [EventLogger(log1, dict(customer='Jones', invoice=123), io.clock)]
    with [io = MockIO()]. *)
Definition event0 : EventLogger.t MockIO.t :=
  EventLogger.__init__ "log1"
    [("customer", VStr "Jones"); ("invoice", VInt 123)]
    (MockIO.__init__ MockIO.default_now).

Definition lay_foundation : cmd :=
  WithStep "lay foundation %(depth)d ft deep" [("depth", VInt 20)] None
    (Seq (AppendMsg " at %(temp)d degrees") (SetArg "temp" (VInt 65))).

Definition frame_house : cmd :=
  WithStep "frame %(stories)d story house" [("stories", VInt 2)] None Pass.

(** Entering the outer step [Build %(product)s]. *)
Definition enter_build
  : result (frame * LogState) * EventLogger.t MockIO.t :=
  step_enter MockIO.clock "Build %(product)s" [("product", VStr "house")]
    None event0.

(** The logger once [c] has run inside the outer step, which is still
    open. *)
Definition inside_build (c : cmd) : option (EventLogger.t MockIO.t) :=
  match enter_build with
  | (Ok (_, st), lg1) =>
      match exec MockIO.clock c st lg1 with
      | (Ok _, _, lg2) => Some lg2
      | _ => None
      end
  | _ => None
  end.

(** The logger inside the body of [frame_house], after [lay_foundation]. *)
Definition inside_frame : option (EventLogger.t MockIO.t) :=
  match inside_build lay_foundation with
  | Some lg =>
      match step_enter MockIO.clock "frame %(stories)d story house"
              [("stories", VInt 2)] None lg with
      | (Ok _, lg1) => Some lg1
      | _ => None
      end
  | None => None
  end.

(** Where the doctest calls [event0.eta(pct=25)]: after both inner steps
    and [event0.elapsed()]. *)
Definition at_eta : option (EventLogger.t MockIO.t) :=
  inside_build (Seq lay_foundation (Seq frame_house (CallElapsed None))).

(** [eta(pct)] there, with the reading the clock gave it. *)
Definition eta_at (here : option (EventLogger.t MockIO.t)) (pct : float)
  : option (result datetime * datetime) :=
  match here with
  | Some lg =>
      let '(r, lg') := eta MockIO.clock pct lg in
      Some (r, MockIO._now (_clock lg'))
  | None => None
  end.

(** The last reading the clock has given at [here]. *)
Definition last_reading (here : option (EventLogger.t MockIO.t))
  : option datetime :=
  option_map (fun lg => MockIO._now (_clock lg)) here.

(** Start of the outermost active frame at [here]. *)
Definition outer_start (here : option (EventLogger.t MockIO.t))
  : option datetime :=
  match here with
  | Some lg =>
      match _step lg with
      | (_, t0) :: _ => Some t0
      | [] => None
      end
  | None => None
  end.

(** The same places as loggers; [event0] stands for a run that did not
    get there. *)
Definition logger_at (here : option (EventLogger.t MockIO.t))
  : EventLogger.t MockIO.t :=
  match here with
  | Some lg => lg
  | None => event0
  end.

End Doctest.

(** ** Relations between two states of a logger *)

(** [lg'] comes after [lg]: it has logged more, and the begin records among
    the new ones carry sequence numbers that increase strictly, all of them
    above the counter of [lg] and none above the counter of [lg']. *)
Definition continues {K : Type} (lg lg' : EventLogger.t K) : Prop :=
  exists new,
    EventLogger.logged lg' = EventLogger.logged lg ++ new
    /\ EventLogger._seq lg <= EventLogger._seq lg'
    /\ StronglySorted Z.lt (assigned new)
    /\ Forall (fun n => EventLogger._seq lg < n <= EventLogger._seq lg')
         (assigned new).

(** [lg'] is a later state of [lg]: the frames of [lg] are still at the
    bottom of the stack, and every record logged meanwhile belongs to a
    step nested below them. *)
Definition below {K : Type} (lg lg' : EventLogger.t K) : Prop :=
  (exists more, EventLogger._step lg' = EventLogger._step lg ++ more)
  /\ exists new,
      EventLogger.logged lg' = EventLogger.logged lg ++ new
      /\ Forall (fun r => (List.length (EventLogger._step lg)
                           < List.length (breadcrumb r))%nat) new.

(** ** The shape of a log *)

(** [well_nested base rs]: the step records [rs] open and close scopes
    like brackets.  Each begin record is answered, after the records of the
    scopes nested in it, by an end record with the same breadcrumb, and
    that breadcrumb is the enclosing one, [base], followed by one more
    sequence number. *)
Inductive well_nested : list Z -> list LogRecord -> Prop :=
| wn_nil (base : list Z) : well_nested base []
| wn_step (base : list Z) (q : Z) (rb : LogRecord)
    (inner : list LogRecord) (re : LogRecord) (rest : list LogRecord) :
    is_begin rb = true ->
    breadcrumb rb = base ++ [q] ->
    well_nested (base ++ [q]) inner ->
    is_end re = true ->
    breadcrumb re = base ++ [q] ->
    well_nested base rest ->
    well_nested base (rb :: inner ++ re :: rest).


(** The [context] a record was logged with. *)
Definition context_of (r : LogRecord) : option pyval :=
  dict_get "context" (extra_of r).

(** [lg'] is a later state of [lg] in which the context is the same and
    every record logged meanwhile carries it. *)
Definition keeps_context {K : Type} (lg lg' : EventLogger.t K) : Prop :=
  EventLogger.event lg' = EventLogger.event lg
  /\ exists new,
      EventLogger.logged lg' = EventLogger.logged lg ++ new
      /\ Forall (fun r => context_of r = Some (VDict (EventLogger.event lg)))
           new.

(** The start a begin record counts [t_step] from: that of the outermost
    active frame, or the step's own checkpoint when no frame is active. *)
Definition since {A : Type} (stack : list (A * datetime)) (cp : datetime)
  : datetime :=
  match stack with
  | [] => cp
  | (_, t0) :: _ => t0
  end.

(** [lg'] is a later state of [lg] in which the begin records logged
    meanwhile carry the numbers that follow the counter of [lg], one after
    the other, up to the counter of [lg']. *)
Definition numbered {K : Type} (lg lg' : EventLogger.t K) : Prop :=
  exists new n,
    EventLogger.logged lg' = EventLogger.logged lg ++ new
    /\ assigned new
       = map (fun i => EventLogger._seq lg + Z.of_nat i) (seq 1 n)
    /\ EventLogger._seq lg' = EventLogger._seq lg + Z.of_nat n.

(** ** Calling the test clock over and over *)

(** [n] calls of [io.clock()] in a row: the readings, oldest first, and the
    clock as the last call left it.  A call that raises ends the run. *)
Fixpoint clock_calls (n : nat) (io : MockIO.t)
  : result (list datetime) * MockIO.t :=
  match n with
  | O => (Ok [], io)
  | S n' =>
      match MockIO.clock io with
      | (Ok d, io1) =>
          let '(r, io2) := clock_calls n' io1 in
          (let* ds := r in Ok (d :: ds), io2)
      | (Raise e, io1) => (Raise e, io1)
      | (Blocks, io1) => (Blocks, io1)
      end
  end.

(** [1 + 2 + ... + n] *)
Fixpoint triangle (n : nat) : Z :=
  match n with
  | O => 0
  | S n' => triangle n' + Z.of_nat n
  end.

(** The first instant past [datetime.max]'s day. *)
Definition end_of_time : Z := (_MAXORDINAL + 1) * us_per_day.

(** ** What a handler was given and what it passes on *)

(** The records handed to [emit] in a run of calls, in order. *)
Fixpoint emitted (ops : list DebounceHandler.op) : list LogRecord :=
  match ops with
  | [] => []
  | DebounceHandler.Emit record :: rest => record :: emitted rest
  | _ :: rest => emitted rest
  end.

(** [subseq l1 l2]: [l1] is [l2] with some entries left out. *)
Inductive subseq {A : Type} : list A -> list A -> Prop :=
| subseq_nil : subseq [] []
| subseq_skip (x : A) (l1 l2 : list A) :
    subseq l1 l2 -> subseq l1 (x :: l2)
| subseq_take (x : A) (l1 l2 : list A) :
    subseq l1 l2 -> subseq (x :: l1) (x :: l2).

(** What a queue of the given [maxsize] retains of [l] when the oldest
    entry makes room each time it is full: the newest [maxsize] entries,
    or all of them when [maxsize <= 0]. *)
Definition newest {A : Type} (maxsize : Z) (l : list A) : list A :=
  if 0 <? maxsize then skipn (List.length l - Z.to_nat maxsize) l else l.

(** ** A stream of records through the text handler *)

(** The records a logger hands to the handler, one [handle] call after the
    other. *)
Definition handle_all (getMessage : LogRecord -> string)
    (h : TextHandler.t) (records : list LogRecord) : TextHandler.t :=
  fold_left (fun h' record => snd (TextHandler.handle getMessage h' record))
    records h.

(** Does the rendered message start with one of the skips? *)
Definition skipped (getMessage : LogRecord -> string) (skips : list string)
    (record : LogRecord) : bool :=
  existsb (fun skip => String.prefix skip (getMessage record)) skips.

(** * Properties *)
(** ** Python lists *)

Lemma py_first_app {A : Type} (l : list A) (x : A) :
  py_first (l ++ [x]) = Ok (hd x l).
Proof. destruct l; reflexivity. Qed.

(** ** elapsed and eta *)

Lemma whole_factors_exact (pct : float) (n : Z) :
  In (pct, n) whole_factors ->
  exists f, eta_factor pct = Ok f /\ as_integer_ratio f = Ok (n, 1).
Proof.
  unfold whole_factors. cbn [In].
  intros H.
  repeat (destruct H as [H|H];
          [inversion H; subst; eexists; split; vm_compute; reflexivity|]).
  contradiction.
Qed.

Lemma divide_and_round_by_one (a : Z) : _divide_and_round a 1 = a.
Proof.
  unfold _divide_and_round.
  rewrite Z.div_1_r, Z.mod_1_r. reflexivity.
Qed.

Section EtaFacts.

Context {K : Type}.
Variable clock : K -> result datetime * K.

Import EventLogger.

Lemma eta_unfold (lg : t K) (q0 : Z) (t0 : datetime)
    (rest : list (Z * datetime)) (now : datetime) (k' : K) (pct : float) :
  _step lg = (q0, t0) :: rest ->
  clock (_clock lg) = (Ok now, k') ->
  eta clock pct lg =
    (let* f := eta_factor pct in
     let* x := td_mul_float (dt_sub now t0) f in
     dt_add t0 x, set_clock lg k').
Proof.
  intros Hs Hc. unfold eta, call_clock, eta_factor.
  rewrite Hs, Hc. cbn [py_first].
  destruct (float_truediv pct 100) as [d| |]; reflexivity.
Qed.

End EtaFacts.

Lemma mk_timedelta_value (x : Z) (d : timedelta) :
  mk_timedelta x = Ok d -> d = x.
Proof.
  unfold mk_timedelta. destruct (in_range _ _ _); congruence.
Qed.

Lemma dt_add_value (a : datetime) (d : timedelta) (r : datetime) :
  dt_add a d = Ok r -> r = a + d.
Proof.
  unfold dt_add, mk_timedelta.
  destruct (in_range (- _MAXDAYS) _ _); cbn [bind]; [|discriminate].
  destruct (in_range 1 _ _); congruence.
Qed.

(** [_divide_and_round a b] is within half a unit of [a / b]. *)
Lemma divide_and_round_nearest (a b : Z) :
  0 < b -> 2 * Z.abs (_divide_and_round a b * b - a) <= b.
Proof.
  intros Hb. unfold _divide_and_round.
  pose proof (Z.div_mod a b ltac:(lia)) as Hdm.
  pose proof (Z.mod_pos_bound a b Hb) as Hm.
  replace (0 <? b) with true by (symmetry; apply Z.ltb_lt; exact Hb).
  destruct (b <? 2 * (a mod b)) eqn:Egt; cbn [orb].
  - apply Z.ltb_lt in Egt. nia.
  - apply Z.ltb_ge in Egt.
    destruct ((2 * (a mod b) =? b) && (a / b mod 2 =? 1)) eqn:Etie.
    + apply andb_prop in Etie. destruct Etie as [Eh _].
      apply Z.eqb_eq in Eh. nia.
    + nia.
Qed.

Lemma as_integer_ratio_pos (f : float) (a b : Z) :
  as_integer_ratio f = Ok (a, b) -> 0 < b.
Proof.
  unfold as_integer_ratio.
  destruct (Prim2SF f) as [s|s| |s m e]; try discriminate.
  - intros H. injection H as _ <-. lia.
  - set (mz := if s then Z.neg m else Z.pos m).
    destruct (0 <=? e) eqn:Ee.
    + intros H. injection H as _ <-.
      rewrite Z.gcd_1_r. cbn. lia.
    + intros H. injection H as _ <-.
      apply Z.leb_gt in Ee.
      assert (Hp : 0 < 2 ^ (- e)) by (apply Z.pow_pos_nonneg; lia).
      pose proof (Z.gcd_nonneg mz (2 ^ (- e))) as Hg0.
      pose proof (Z.gcd_divide_r mz (2 ^ (- e))) as [k Hk].
      assert (Hg : 0 < Z.gcd mz (2 ^ (- e))).
      { destruct (Z.eq_dec (Z.gcd mz (2 ^ (- e))) 0) as [E|E]; [|lia].
        rewrite E in Hk. lia. }
      rewrite Hk at 1. rewrite Z.div_mul by lia. nia.
Qed.

(** C2 (as amended).  With an active frame and a clock that returns,
    [eta(pct)] reads the clock once and returns
    [t0 + elapsed * (1 / (pct / 100))], where [t0] is the start of the
    outermost frame, the factor is computed in binary64 and the product is
    rounded to the microsecond, so that a returned value is within half a
    microsecond of [t0 + elapsed * f] for the exact value [f = a / b] of
    that factor; it raises instead when the factor or the result is not
    representable.  For the percentages of [whole_factors]
    the factor is exactly [100 / pct], so that a returned value is
    [t0 + elapsed * (100 / pct)].  In the doctest the outer frame starts at
    12:30:01, the clock has last read 12:30:21 when [eta(25)] is called
    and reads 12:30:28 inside it: 27 seconds have elapsed and the result
    is 12:31:49. *)
Theorem eta_linear_extrapolation :
  (forall (K : Type) (clock : K -> result datetime * K)
          (lg : EventLogger.t K) (q0 : Z) (t0 : datetime)
          (rest : list (Z * datetime)) (now : datetime) (k' : K),
      EventLogger._step lg = (q0, t0) :: rest ->
      clock (EventLogger._clock lg) = (Ok now, k') ->
      (forall pct,
          EventLogger.eta clock pct lg =
            (let* f := eta_factor pct in
             let* x := td_mul_float (dt_sub now t0) f in
             dt_add t0 x, EventLogger.set_clock lg k'))
      /\ (forall pct n, In (pct, n) whole_factors ->
            EventLogger.eta clock pct lg =
              (let* x := mk_timedelta (dt_sub now t0 * n) in dt_add t0 x,
               EventLogger.set_clock lg k'))
      /\ (forall pct n r, In (pct, n) whole_factors ->
            fst (EventLogger.eta clock pct lg) = Ok r ->
            r = t0 + (now - t0) * n)
      /\ (forall pct f a b r,
            eta_factor pct = Ok f -> as_integer_ratio f = Ok (a, b) ->
            fst (EventLogger.eta clock pct lg) = Ok r ->
            0 < b /\ 2 * Z.abs ((r - t0) * b - (now - t0) * a) <= b))
  /\ (Doctest.outer_start Doctest.at_eta = Some (ymd_hms 2000 1 1 12 30 1)
      /\ Doctest.last_reading Doctest.at_eta
         = Some (ymd_hms 2000 1 1 12 30 21)
      /\ Doctest.eta_at Doctest.at_eta 25
         = Some (Ok (ymd_hms 2000 1 1 12 31 49), ymd_hms 2000 1 1 12 30 28)
      /\ dt_sub (ymd_hms 2000 1 1 12 30 28) (ymd_hms 2000 1 1 12 30 1)
         = 27 * us_per_second).
Proof.
  split.
  - intros K clock lg q0 t0 rest now k' Hs Hc.
    assert (Hwhole : forall pct n, In (pct, n) whole_factors ->
              EventLogger.eta clock pct lg =
                (let* x := mk_timedelta (dt_sub now t0 * n) in dt_add t0 x,
                 EventLogger.set_clock lg k')).
    { intros pct n Hin.
      rewrite (eta_unfold clock lg q0 t0 rest now k' pct Hs Hc).
      destruct (whole_factors_exact pct n Hin) as [f [Hf Hr]].
      rewrite Hf. cbn [bind]. unfold td_mul_float. rewrite Hr.
      cbn [bind fst snd]. rewrite divide_and_round_by_one. reflexivity. }
    split; [|split; [|split]].
    + intros pct. exact (eta_unfold clock lg q0 t0 rest now k' pct Hs Hc).
    + exact Hwhole.
    + intros pct n r Hin Hr. rewrite (Hwhole pct n Hin) in Hr.
      cbn [fst] in Hr.
      destruct (mk_timedelta (dt_sub now t0 * n)) as [x| |] eqn:Ex;
        cbn [bind] in Hr; try discriminate.
      apply mk_timedelta_value in Ex. apply dt_add_value in Hr.
      unfold dt_sub in Ex. lia.
    + intros pct f a b r Hf Hab Hr.
      pose proof (as_integer_ratio_pos f a b Hab) as Hb.
      split; [exact Hb|].
      rewrite (eta_unfold clock lg q0 t0 rest now k' pct Hs Hc) in Hr.
      rewrite Hf in Hr. cbn [bind fst] in Hr.
      unfold td_mul_float in Hr. rewrite Hab in Hr. cbn [bind fst snd] in Hr.
      destruct (mk_timedelta (_divide_and_round (dt_sub now t0 * a) b))
        as [x| |] eqn:Ex; cbn [bind] in Hr; try discriminate.
      apply mk_timedelta_value in Ex. apply dt_add_value in Hr.
      pose proof (divide_and_round_nearest (dt_sub now t0 * a) b Hb) as Hn.
      unfold dt_sub in *. subst x r.
      replace (t0 + _divide_and_round ((now - t0) * a) b - t0)
        with (_divide_and_round ((now - t0) * a) b) by lia.
      exact Hn.
  - repeat split; vm_compute; reflexivity.
Qed.

(** The doctest's own call, through the theorem: [eta(25)] is
    [t0 + 4 * elapsed]. *)
Lemma eta_linear_extrapolation_witness :
  fst (EventLogger.eta MockIO.clock 25 (Doctest.logger_at Doctest.at_eta))
  = Ok (ymd_hms 2000 1 1 12 31 49).
Proof.
  destruct (proj1 eta_linear_extrapolation MockIO.t MockIO.clock
              (Doctest.logger_at Doctest.at_eta)
              1 (ymd_hms 2000 1 1 12 30 1) []
              (ymd_hms 2000 1 1 12 30 28)
              {| MockIO._now := ymd_hms 2000 1 1 12 30 28;
                 MockIO._delta := 8 |}
              ltac:(vm_compute; reflexivity) ltac:(vm_compute; reflexivity))
    as [_ [Hwhole _]].
  rewrite (Hwhole 25%float 4
             ltac:(unfold whole_factors; cbn [In]; tauto)).
  vm_compute. reflexivity.
Defined.

(** C2, as stated, fails on the doctest.  If the reading [eta(25)] takes
    is 9 seconds after the outer start (it is called once
    [lay_foundation] is done), the result is 12:30:37; if 9 seconds have
    gone by when it is called (inside [frame_house]), the result is
    12:30:57.  Neither is 12:31:49.  And a positive [pct] need not give a
    result at all: for the smallest positive float, [pct / 100] is zero
    and [eta] raises. *)
Lemma eta_nine_seconds_elapsed :
  (Doctest.outer_start (Doctest.inside_build Doctest.lay_foundation)
     = Some (ymd_hms 2000 1 1 12 30 1)
   /\ Doctest.eta_at (Doctest.inside_build Doctest.lay_foundation) 25
      = Some (Ok (ymd_hms 2000 1 1 12 30 37), ymd_hms 2000 1 1 12 30 10)
   /\ dt_sub (ymd_hms 2000 1 1 12 30 10) (ymd_hms 2000 1 1 12 30 1)
      = 9 * us_per_second)
  /\ (Doctest.outer_start Doctest.inside_frame
        = Some (ymd_hms 2000 1 1 12 30 1)
      /\ Doctest.last_reading Doctest.inside_frame
         = Some (ymd_hms 2000 1 1 12 30 10)
      /\ Doctest.eta_at Doctest.inside_frame 25
         = Some (Ok (ymd_hms 2000 1 1 12 30 57), ymd_hms 2000 1 1 12 30 15))
  /\ ymd_hms 2000 1 1 12 30 37 <> ymd_hms 2000 1 1 12 31 49
  /\ ymd_hms 2000 1 1 12 30 57 <> ymd_hms 2000 1 1 12 31 49
  /\ PrimFloat.ltb 0 (Z.ldexp 1 (-1074)) = true
  /\ Doctest.eta_at Doctest.at_eta (Z.ldexp 1 (-1074))
     = Some (Raise ZeroDivisionError, ymd_hms 2000 1 1 12 30 28).
Proof.
  repeat split; try (vm_compute; reflexivity); vm_compute; discriminate.
Qed.

(** C6.  With an active frame and a clock that returns, [eta(0)] raises
    [ZeroDivisionError], for the zero of either sign; the clock has been
    read by then. *)
Theorem eta_zero_raises (K : Type) (clock : K -> result datetime * K)
    (lg : EventLogger.t K) (q0 : Z) (t0 : datetime)
    (rest : list (Z * datetime)) (now : datetime) (k' : K) :
  EventLogger._step lg = (q0, t0) :: rest ->
  clock (EventLogger._clock lg) = (Ok now, k') ->
  EventLogger.eta clock PrimFloat.zero lg
    = (Raise ZeroDivisionError, EventLogger.set_clock lg k')
  /\ EventLogger.eta clock PrimFloat.neg_zero lg
     = (Raise ZeroDivisionError, EventLogger.set_clock lg k').
Proof.
  intros Hs Hc.
  split; rewrite (eta_unfold clock lg q0 t0 rest now k' _ Hs Hc);
    reflexivity.
Qed.

Lemma eta_zero_raises_witness :
  fst (EventLogger.eta MockIO.clock PrimFloat.zero
         (Doctest.logger_at Doctest.at_eta))
  = Raise ZeroDivisionError.
Proof.
  rewrite (proj1 (eta_zero_raises MockIO.t MockIO.clock
                    (Doctest.logger_at Doctest.at_eta)
                    1 (ymd_hms 2000 1 1 12 30 1) []
                    (ymd_hms 2000 1 1 12 30 28)
                    {| MockIO._now := ymd_hms 2000 1 1 12 30 28;
                       MockIO._delta := 8 |}
                    ltac:(vm_compute; reflexivity)
                    ltac:(vm_compute; reflexivity))).
  reflexivity.
Defined.

(** C10.  On a logger with no active frame, [elapsed()] without a
    reference and [eta(pct)] for any [pct] raise [IndexError]; the clock is
    not read and nothing changes. *)
Theorem empty_stack_index_error (K : Type)
    (clock : K -> result datetime * K) (lg : EventLogger.t K) :
  EventLogger._step lg = [] ->
  EventLogger.elapsed clock None lg = (Raise IndexError, lg)
  /\ forall pct, EventLogger.eta clock pct lg = (Raise IndexError, lg).
Proof.
  intros Hs. unfold EventLogger.elapsed, EventLogger.eta.
  rewrite Hs. split; reflexivity.
Qed.

Lemma empty_stack_index_error_witness :
  EventLogger.elapsed MockIO.clock None Doctest.event0
    = (Raise IndexError, Doctest.event0)
  /\ EventLogger.eta MockIO.clock 25 Doctest.event0
     = (Raise IndexError, Doctest.event0).
Proof.
  destruct (empty_stack_index_error MockIO.t MockIO.clock Doctest.event0
              eq_refl) as [He Ht].
  split; [exact He | exact (Ht 25%float)].
Defined.

(** ** Dictionaries and step records *)

Lemma dict_get_set_same (k : string) (v : pyval) (d : dict) :
  dict_get k (dict_set k v d) = Some v.
Proof.
  induction d as [|[k' v'] d IH]; cbn [dict_set dict_get].
  - rewrite String.eqb_refl. reflexivity.
  - destruct (String.eqb k k') eqn:E; cbn [dict_get]; rewrite E;
      [reflexivity | exact IH].
Qed.

Lemma dict_get_set_other (k k' : string) (v : pyval) (d : dict) :
  k <> k' -> dict_get k (dict_set k' v d) = dict_get k d.
Proof.
  intros Hne. induction d as [|[k2 v2] d IH]; cbn [dict_set dict_get].
  - apply String.eqb_neq in Hne. rewrite Hne. reflexivity.
  - destruct (String.eqb k' k2) eqn:E; cbn [dict_get].
    + apply String.eqb_eq in E. subst k2.
      apply String.eqb_neq in Hne. rewrite Hne. reflexivity.
    + rewrite IH. reflexivity.
Qed.

Lemma ints_map_VInt (l : list Z) : ints (map VInt l) = l.
Proof. induction l as [|x l IH]; cbn; [|rewrite IH]; reflexivity. Qed.

(** A step record carries the breadcrumb it was built with, whatever the
    caller's arguments hold. *)
Lemma breadcrumb_step_record (level : Z) (m : string) (a ex : dict)
    (ixs : list Z) (ts : pyval) :
  breadcrumb
    {| levelno := level; msg := m;
       args := dict_with a [("step"%string, VList (map VInt ixs));
                            ("t_step"%string, ts)];
       extra_of := ex |} = ixs.
Proof.
  unfold breadcrumb. cbn [args dict_with fold_left fst snd].
  rewrite dict_get_set_other by discriminate.
  rewrite dict_get_set_same. apply ints_map_VInt.
Qed.

Lemma has_do_step_record {K : Type} (lg : EventLogger.t K) (level : Z)
    (m : string) (a ex : dict) (what tag : string) (el : pyval) :
  has_do what
    {| levelno := level; msg := m; args := a;
       extra_of :=
         EventLogger.process lg
           (dict_with ex [("do"%string, VStr tag);
                          ("elapsed"%string, el)]) |}
  = String.eqb tag what.
Proof.
  unfold has_do, EventLogger.process.
  cbn [extra_of dict_with fold_left fst snd].
  rewrite !dict_get_set_other by discriminate.
  rewrite dict_get_set_same. reflexivity.
Qed.


(** [makeRecord] looks at the keys only. *)
Lemma refused_dict_set (k : string) (v : pyval) (d : dict) :
  refused (dict_set k v d) = refused d || reserved k.
Proof.
  unfold refused. induction d as [|[k' v'] d IH]; cbn [dict_set existsb fst].
  - apply orb_false_r.
  - destruct (String.eqb k k') eqn:E; cbn [existsb fst].
    + apply String.eqb_eq in E. subst k'.
      destruct (reserved k); cbn [orb]; [reflexivity|].
      rewrite orb_false_r. reflexivity.
    + rewrite IH, orb_assoc. reflexivity.
Qed.

(** The keys [step] and [process] add are not reserved, so the verdict on
    what [step] hands over is the verdict on the caller's [extra]. *)
Lemma refused_step_extra {K : Type} (lg : EventLogger.t K) (ex : dict)
    (tag : string) (el : pyval) :
  refused
    (EventLogger.process lg
       (dict_with ex [("do"%string, VStr tag); ("elapsed"%string, el)]))
  = refused ex.
Proof.
  unfold EventLogger.process. cbn [dict_with fold_left fst snd].
  rewrite !refused_dict_set.
  change (reserved "context") with false.
  change (reserved "elapsed") with false.
  change (reserved "do") with false.
  rewrite !orb_false_r. reflexivity.
Qed.

Lemma since_hd (stack : list (Z * datetime)) (q : Z) (cp : datetime) :
  snd (hd (q, cp) stack) = since stack cp.
Proof. destruct stack as [|[q0 t0] rest]; reflexivity. Qed.

(** ** What the two halves of [step] do *)

Section StepFacts.

Context {K : Type}.
Variable clock : K -> result datetime * K.

Import EventLogger.

Lemma elapsed_since (cp : datetime) (lg : t K) :
  (exists now k',
      clock (_clock lg) = (Ok now, k')
      /\ elapsed clock (Some cp) lg
         = (Ok (cp, dt_sub now cp,
                int_of_float
                  (PrimFloat.mul (total_seconds (dt_sub now cp)) 1000000)),
            set_clock lg k'))
  \/ (exists r k',
         elapsed clock (Some cp) lg = (r, set_clock lg k')
         /\ (forall x, r <> Ok x)
         /\ forall now, fst (clock (_clock lg)) <> Ok now).
Proof.
  unfold elapsed, call_clock.
  destruct (clock (_clock lg)) as [[now|e|] k'].
  - left. exists now, k'. split; reflexivity.
  - right. exists (Raise e), k'. repeat split; discriminate.
  - right. exists Blocks, k'. repeat split; discriminate.
Qed.

(** [step] on the way in: the clock fails and nothing has changed; or the
    frame is pushed and [makeRecord] refuses the begin record; or the begin
    record is logged and the handle is yielded. *)
Lemma step_enter_cases (m : string) (a : dict) (ex : option dict)
    (lg : t K) :
  (exists cp k' rb,
      clock (_clock lg) = (Ok cp, k')
      /\ refused (or_empty ex) = false
      /\ step_enter clock m a ex lg
         = (Ok ({| checkpoint := cp;
                   step_ixs := map fst (_step lg) ++ [_seq lg + 1] |},
                {| msg_parts := [m]; argobj := a; extra := or_empty ex |}),
            {| name := name lg; event := event lg; _clock := k';
               _seq := _seq lg + 1;
               _step := _step lg ++ [(_seq lg + 1, cp)];
               logged := logged lg ++ [rb] |})
      /\ levelno rb = INFO
      /\ msg rb = (fmt_step ++ m ++ "...")%string
      /\ is_begin rb = true /\ is_end rb = false
      /\ breadcrumb rb = map fst (_step lg) ++ [_seq lg + 1]
      /\ context_of rb = Some (VDict (event lg))
      /\ args rb
         = dict_with a
             [("step"%string,
               VList (map VInt (map fst (_step lg) ++ [_seq lg + 1])));
              ("t_step"%string,
               VStrTimedelta (dt_sub cp (since (_step lg) cp)))]
      /\ dict_get "elapsed" (extra_of rb) = Some (elapsed_begin cp))
  \/ (exists cp k',
         clock (_clock lg) = (Ok cp, k')
         /\ refused (or_empty ex) = true
         /\ step_enter clock m a ex lg
            = (Raise KeyError,
               {| name := name lg; event := event lg; _clock := k';
                  _seq := _seq lg + 1;
                  _step := _step lg ++ [(_seq lg + 1, cp)];
                  logged := logged lg |}))
  \/ (exists r k',
         step_enter clock m a ex lg = (r, set_clock lg k')
         /\ (forall x, r <> Ok x)
         /\ forall now, fst (clock (_clock lg)) <> Ok now).
Proof.
  unfold step_enter, call_clock.
  destruct (clock (_clock lg)) as [[cp|e|] k'].
  - cbn [_step _seq set_seq set_step set_clock].
    rewrite py_first_app, map_app. cbn [map fst].
    rewrite (surjective_pairing (hd (_seq lg + 1, cp) (_step lg))).
    rewrite since_hd.
    unfold info, log. rewrite refused_step_extra.
    destruct (refused (or_empty ex)) eqn:Eref.
    + right. left. exists cp, k'. repeat split.
    + left. eexists cp, k', _. split; [reflexivity|].
      split; [reflexivity|].
      split; [unfold add_logged; reflexivity|].
      split; [reflexivity|]. split; [reflexivity|].
      split; [unfold is_begin; rewrite has_do_step_record; reflexivity|].
      split; [unfold is_end; rewrite has_do_step_record; reflexivity|].
      split; [apply breadcrumb_step_record|].
      split; [unfold context_of, process;
              cbn [extra_of dict_with fold_left fst snd];
              apply dict_get_set_same|].
      split; [reflexivity|].
      unfold process. cbn [extra_of dict_with fold_left fst snd].
      rewrite dict_get_set_other by discriminate.
      apply dict_get_set_same.
  - right. right. exists (Raise e), k'. repeat split; discriminate.
  - right. right. exists Blocks, k'. repeat split; discriminate.
Qed.

(** [step] on the way out: the clock fails; or [makeRecord] refuses the
    completion record; or the record is logged and the stack popped.  In
    the first two cases nothing but the clock has changed. *)
Lemma step_exit_cases (fr : frame) (st : LogState) (thrown : option exn)
    (lg : t K) :
  (exists now k' re,
      clock (_clock lg) = (Ok now, k')
      /\ refused (extra st) = false
      /\ step_exit clock fr st thrown lg
         = (match _step lg with
            | [] => Raise IndexError
            | _ => match thrown with
                   | Some e => Raise e
                   | None => Ok tt
                   end
            end,
            {| name := name lg; event := event lg; _clock := k';
               _seq := _seq lg; _step := removelast (_step lg);
               logged := logged lg ++ [re] |})
      /\ levelno re = match thrown with Some _ => ERROR | None => INFO end
      /\ msg re
         = (String.concat "" (fmt_step :: msg_parts st) ++ ".")%string
      /\ is_end re = true /\ is_begin re = false
      /\ breadcrumb re = step_ixs fr
      /\ context_of re = Some (VDict (event lg))
      /\ args re
         = dict_with (argobj st)
             [("step"%string, VList (map VInt (step_ixs fr)));
              ("t_step"%string,
               VStrTimedelta (dt_sub now (checkpoint fr)))]
      /\ dict_get "elapsed" (extra_of re)
         = Some (VTuple
                   [VStrDatetime (checkpoint fr);
                    VStrTimedelta (dt_sub now (checkpoint fr));
                    VInt (int_of_float
                            (PrimFloat.mul
                               (total_seconds (dt_sub now (checkpoint fr)))
                               1000000))]))
  \/ (exists now k',
         clock (_clock lg) = (Ok now, k')
         /\ refused (extra st) = true
         /\ step_exit clock fr st thrown lg
            = (Raise KeyError, set_clock lg k'))
  \/ (exists r k',
         step_exit clock fr st thrown lg = (r, set_clock lg k')
         /\ (forall x, r <> Ok x)
         /\ forall now, fst (clock (_clock lg)) <> Ok now).
Proof.
  unfold step_exit.
  destruct (elapsed_since (checkpoint fr) lg)
    as [(now & k' & Hc & He) | (r & k' & He & Hr & Hno)].
  - rewrite He. unfold log. rewrite refused_step_extra.
    destruct (refused (extra st)) eqn:Eref.
    + right. left. exists now, k'. repeat split. exact Hc.
    + left. eexists now, k', _. split; [exact Hc|].
      split; [reflexivity|].
      split.
      { unfold add_logged, py_pop.
        cbn [_step set_clock set_step name event _clock _seq logged].
        destruct (_step lg) as [|f0 l0]; reflexivity. }
      cbn [levelno msg args fst snd].
      split; [reflexivity|]. split; [reflexivity|].
      split; [unfold is_end; rewrite has_do_step_record; reflexivity|].
      split; [unfold is_begin; rewrite has_do_step_record; reflexivity|].
      split; [apply breadcrumb_step_record|].
      split; [unfold context_of, process;
              cbn [extra_of dict_with fold_left fst snd event set_clock];
              apply dict_get_set_same|].
      split; [reflexivity|].
      unfold process, elapsed_end.
      cbn [extra_of dict_with fold_left fst snd].
      rewrite dict_get_set_other by discriminate.
      apply dict_get_set_same.
  - right. right. rewrite He.
    destruct r as [x|e|]; [destruct (Hr x); reflexivity | |].
    + exists (Raise e), k'. repeat split; [discriminate | exact Hno].
    + exists Blocks, k'. repeat split; [discriminate | exact Hno].
Qed.


End StepFacts.

(** ** Sequence numbers *)

Lemma assigned_app (l1 l2 : list LogRecord) :
  assigned (l1 ++ l2) = assigned l1 ++ assigned l2.
Proof.
  induction l1 as [|r l1 IH]; [reflexivity|].
  cbn [app assigned]. destruct (is_begin r); [cbn [app]|]; rewrite IH;
    reflexivity.
Qed.

Lemma sorted_app (l1 l2 : list Z) :
  StronglySorted Z.lt l1 -> StronglySorted Z.lt l2 ->
  (forall x y, In x l1 -> In y l2 -> x < y) ->
  StronglySorted Z.lt (l1 ++ l2).
Proof.
  intros H1 H2 Hlt. induction H1 as [|x l1 Hs IH Hx]; [exact H2|].
  cbn [app]. constructor.
  - apply IH. intros a b Ha Hb. apply Hlt; [right; exact Ha | exact Hb].
  - apply Forall_app. split; [exact Hx|].
    apply Forall_forall. intros y Hy. apply Hlt; [left; reflexivity|exact Hy].
Qed.

Lemma sorted_nodup (l : list Z) : StronglySorted Z.lt l -> NoDup l.
Proof.
  induction 1 as [|x l Hs IH Hx]; constructor; [|exact IH].
  intros Hin. rewrite Forall_forall in Hx. specialize (Hx x Hin). lia.
Qed.

Section SequenceFacts.

Context {K : Type}.
Variable clock : K -> result datetime * K.

Import EventLogger.

Lemma continues_refl (lg : t K) : continues lg lg.
Proof.
  exists []. rewrite app_nil_r.
  repeat split; [lia | constructor | constructor].
Qed.

Lemma continues_trans (lg1 lg2 lg3 : t K) :
  continues lg1 lg2 -> continues lg2 lg3 -> continues lg1 lg3.
Proof.
  intros (n1 & L1 & S1 & O1 & B1) (n2 & L2 & S2 & O2 & B2).
  exists (n1 ++ n2). rewrite L2, L1, app_assoc, assigned_app.
  rewrite Forall_forall in B1, B2.
  repeat split.
  - lia.
  - apply sorted_app; [exact O1 | exact O2 |].
    intros x y Hx Hy. specialize (B1 x Hx). specialize (B2 y Hy). lia.
  - apply Forall_app. split; apply Forall_forall; intros x Hx;
      [specialize (B1 x Hx) | specialize (B2 x Hx)]; lia.
Qed.

(** A state that has logged nothing more. *)
Lemma continues_quiet (lg lg' : t K) :
  logged lg' = logged lg -> _seq lg <= _seq lg' -> continues lg lg'.
Proof.
  intros Hl Hs. exists []. rewrite app_nil_r.
  repeat split; [exact Hl | exact Hs | constructor | constructor].
Qed.

Lemma elapsed_keeps (then_ : option datetime) (lg : t K) :
  let lg' := snd (elapsed clock then_ lg) in
  logged lg' = logged lg /\ _seq lg' = _seq lg /\ _step lg' = _step lg.
Proof.
  unfold elapsed, call_clock.
  destruct then_ as [d|]; [|destruct (py_last (_step lg)) as [fr| |]];
    cbn [bind]; try (repeat split; reflexivity);
    destruct (clock (_clock lg)) as [[now|e|] k'];
    repeat split; reflexivity.
Qed.

Lemma eta_keeps (pct : float) (lg : t K) :
  let lg' := snd (eta clock pct lg) in
  logged lg' = logged lg /\ _seq lg' = _seq lg /\ _step lg' = _step lg.
Proof.
  unfold eta, call_clock.
  destruct (py_first (_step lg)) as [[q0 t0]| |];
    try (repeat split; reflexivity);
    destruct (clock (_clock lg)) as [[now|e|] k'];
    repeat split; reflexivity.
Qed.

Lemma step_enter_continues (m : string) (a : dict) (ex : option dict)
    (lg : t K) :
  continues lg (snd (step_enter clock m a ex lg)).
Proof.
  destruct (step_enter_cases clock m a ex lg)
    as [(cp & k' & rb & _ & _ & He & _ & _ & Hb & _ & Hc & _)
       | [(cp & k' & _ & _ & He) | (r & k' & He & _ & _)]];
    rewrite He; cbn [snd].
  - exists [rb]. cbn [logged _seq assigned]. rewrite Hb, Hc, last_last.
    repeat split; try lia.
    + constructor; constructor.
    + constructor; [lia | constructor].
  - apply continues_quiet; cbn [logged _seq]; [reflexivity | lia].
  - apply continues_quiet; cbn; [reflexivity | lia].
Qed.

Lemma step_exit_continues (fr : frame) (st : LogState)
    (thrown : option exn) (lg : t K) :
  continues lg (snd (step_exit clock fr st thrown lg)).
Proof.
  destruct (step_exit_cases clock fr st thrown lg)
    as [(now & k' & re & _ & _ & He & _ & _ & _ & Hb & _)
       | [(now & k' & _ & _ & He) | (r & k' & He & _ & _)]];
    rewrite He; cbn [snd].
  - exists [re]. cbn [logged _seq assigned]. rewrite Hb.
    repeat split; try lia; constructor.
  - apply continues_quiet; cbn; [reflexivity | lia].
  - apply continues_quiet; cbn; [reflexivity | lia].
Qed.

Lemma exec_continues (c : cmd) :
  forall (h : LogState) (lg : t K), continues lg (snd (exec clock c h lg)).
Proof.
  induction c as [ | c1 IH1 c2 IH2 | e | c1 IH1 c2 IH2 | m a ex body IH
                 | s | k v | then_ | pct ];
    intros h lg; cbn [exec].
  - apply continues_refl.
  - specialize (IH1 h lg).
    destruct (exec clock c1 h lg) as [[r1 h1] lg1]. cbn [snd] in IH1.
    destruct r1; cbn [snd]; try exact IH1.
    eapply continues_trans; [exact IH1 | apply IH2].
  - apply continues_refl.
  - specialize (IH1 h lg).
    destruct (exec clock c1 h lg) as [[r1 h1] lg1]. cbn [snd] in IH1.
    destruct r1; cbn [snd]; try exact IH1.
    eapply continues_trans; [exact IH1 | apply IH2].
  - pose proof (step_enter_continues m a ex lg) as He.
    destruct (step_enter clock m a ex lg) as [[[fr st]|e|] lg1];
      cbn [snd] in He |- *; try exact He.
    specialize (IH st lg1).
    destruct (exec clock body st lg1) as [[r st'] lg2]. cbn [snd] in IH.
    pose proof (continues_trans _ _ _ He IH) as H2.
    destruct r as [u|e|]; cbn [snd]; try exact H2.
    + pose proof (step_exit_continues fr st' (thrown_of (Ok u)) lg2) as Hx.
      destruct (step_exit clock fr st' (thrown_of (Ok u)) lg2) as [r' lg3].
      cbn [snd] in Hx |- *. eapply continues_trans; eassumption.
    + pose proof (step_exit_continues fr st' (thrown_of (Raise e)) lg2)
        as Hx.
      destruct (step_exit clock fr st' (thrown_of (Raise e)) lg2)
        as [r' lg3].
      cbn [snd] in Hx |- *. eapply continues_trans; eassumption.
  - apply continues_refl.
  - apply continues_refl.
  - pose proof (elapsed_keeps then_ lg) as (Hl & Hs & _).
    destruct (elapsed clock then_ lg) as [r lg1]. cbn [snd] in *.
    apply continues_quiet; [assumption | lia].
  - pose proof (eta_keeps pct lg) as (Hl & Hs & _).
    destruct (eta clock pct lg) as [r lg1]. cbn [snd] in *.
    apply continues_quiet; [assumption | lia].
Qed.

End SequenceFacts.


(** C7.  Whatever program of nested steps runs on a logger, from its
    construction on, the sequence numbers its begin records show are
    strictly increasing in the order the steps were entered, so that none
    occurs twice; they lie between 1 and the logger's counter. *)
Theorem sequence_numbers_strictly_increase (K : Type)
    (clock : K -> result datetime * K) (logger_name : string) (ev : dict)
    (k : K) (c : EventLogger.cmd) (h : EventLogger.LogState) :
  let lg' :=
    snd (EventLogger.exec clock c h
           (EventLogger.__init__ logger_name ev k)) in
  StronglySorted Z.lt (assigned (EventLogger.logged lg'))
  /\ NoDup (assigned (EventLogger.logged lg'))
  /\ Forall (fun n => 1 <= n <= EventLogger._seq lg')
       (assigned (EventLogger.logged lg')).
Proof.
  intros lg'.
  destruct (exec_continues clock c h (EventLogger.__init__ logger_name ev k))
    as (new & Hl & Hs & Ho & Hb).
  fold lg' in Hl, Hs, Hb. cbn [EventLogger.logged EventLogger.__init__ app]
    in Hl.
  cbn [EventLogger._seq EventLogger.__init__] in Hs, Hb.
  rewrite Hl. split; [exact Ho|]. split; [apply sorted_nodup; exact Ho|].
  eapply Forall_impl; [|exact Hb]. cbn beta. intros n Hn. lia.
Qed.


(** ** Stack discipline *)






Section StackFacts.

Context {K : Type}.
Variable clock : K -> result datetime * K.

Import EventLogger.

Lemma below_refl (lg : t K) : below lg lg.
Proof.
  split; [exists []; rewrite app_nil_r; reflexivity|].
  exists []. rewrite app_nil_r. split; [reflexivity | constructor].
Qed.

Lemma below_trans (lg1 lg2 lg3 : t K) :
  below lg1 lg2 -> below lg2 lg3 -> below lg1 lg3.
Proof.
  intros ((m1 & S1) & n1 & L1 & B1) ((m2 & S2) & n2 & L2 & B2).
  split; [exists (m1 ++ m2); rewrite S2, S1, app_assoc; reflexivity|].
  exists (n1 ++ n2).
  split; [rewrite L2, L1, app_assoc; reflexivity|].
  apply Forall_app. split; [exact B1|].
  eapply Forall_impl; [|exact B2]. cbn beta. intros x Hx.
  rewrite S1, length_app in Hx. lia.
Qed.

(** A state that differs in the clock and the counter only. *)
Lemma below_same (lg lg' : t K) :
  logged lg' = logged lg -> _step lg' = _step lg -> below lg lg'.
Proof.
  intros Hl Hs. split; [exists []; rewrite app_nil_r; exact Hs|].
  exists []. rewrite app_nil_r. split; [exact Hl | constructor].
Qed.

(** Leaving a scope whose frame lies above those of [lg]. *)
Lemma step_exit_below (fr : frame) (st : LogState) (thrown : option exn)
    (lg lg2 : t K) :
  below lg lg2 ->
  (List.length (_step lg) < List.length (_step lg2))%nat ->
  (List.length (_step lg) < List.length (step_ixs fr))%nat ->
  below lg (snd (step_exit clock fr st thrown lg2)).
Proof.
  intros ((more & Hs) & new & Hl & Hf) Hlen Hixs.
  destruct (step_exit_cases clock fr st thrown lg2)
    as [(now & k' & re & _ & _ & He & _ & _ & _ & _ & Hcr & _)
       | [(now & k' & _ & _ & He) | (r & k' & He & _ & _)]];
    rewrite He; cbn [snd].
  - assert (Hmore : more <> []).
    { intros ->. rewrite Hs, app_nil_r in Hlen. lia. }
    split.
    + exists (removelast more). cbn [_step]. rewrite Hs.
      apply removelast_app. exact Hmore.
    + exists (new ++ [re]). cbn [logged].
      split; [rewrite Hl, app_assoc; reflexivity|].
      apply Forall_app. split; [exact Hf|].
      constructor; [rewrite Hcr; exact Hixs | constructor].
  - split; [exists more; exact Hs|]. exists new. split; assumption.
  - split; [exists more; exact Hs|]. exists new. split; assumption.
Qed.

(** Whatever a program does and however its scopes are left, the frames
    it found stay at the bottom of the stack and what it logs belongs to
    steps below them. *)
Lemma exec_below (c : cmd) :
  forall (h : LogState) (lg : t K), below lg (snd (exec clock c h lg)).
Proof.
  induction c as [ | c1 IH1 c2 IH2 | e | c1 IH1 c2 IH2 | m a ex body IH
                 | s | k v | then_ | pct ];
    intros h lg; cbn [exec].
  - apply below_refl.
  - specialize (IH1 h lg).
    destruct (exec clock c1 h lg) as [[r1 h1] lg1]. cbn [snd] in IH1.
    destruct r1; cbn [snd]; try exact IH1.
    eapply below_trans; [exact IH1 | apply IH2].
  - apply below_refl.
  - specialize (IH1 h lg).
    destruct (exec clock c1 h lg) as [[r1 h1] lg1]. cbn [snd] in IH1.
    destruct r1; cbn [snd]; try exact IH1.
    eapply below_trans; [exact IH1 | apply IH2].
  - destruct (step_enter_cases clock m a ex lg)
      as [(cp & k' & rb & _ & _ & He & _ & _ & _ & _ & Hcr & _)
         | [(cp & k' & _ & _ & He) | (r & k' & He & Hnok & _)]];
      rewrite He.
    + match goal with
      | |- context [exec clock body ?s ?x] => set (st := s); set (lg1 := x)
      end.
      assert (H1 : below lg lg1).
      { split; [exists [(_seq lg + 1, cp)]; reflexivity|].
        exists [rb]. split; [reflexivity|].
        constructor; [|constructor].
        rewrite Hcr, length_app, length_map. cbn. lia. }
      specialize (IH st lg1).
      destruct (exec clock body st lg1) as [[r st'] lg2]. cbn [snd] in IH.
      pose proof (below_trans _ _ _ H1 IH) as H2.
      assert (Hlen : (List.length (_step lg) < List.length (_step lg2))%nat).
      { destruct IH as ((mb & Hs) & _). rewrite Hs. unfold lg1.
        cbn [_step]. rewrite !length_app. cbn. lia. }
      assert (Hixs : (List.length (_step lg)
                      < List.length
                          (step_ixs
                             {| checkpoint := cp;
                                step_ixs :=
                                  map fst (_step lg)
                                  ++ [(_seq lg + 1)%Z] |}))%nat).
      { cbn [step_ixs]. rewrite length_app, length_map. cbn. lia. }
      destruct r as [u|e|]; cbn [snd]; try exact H2.
      * pose proof (step_exit_below _ st' (thrown_of (Ok u)) lg lg2
                      H2 Hlen Hixs) as Hx.
        destruct (step_exit clock _ st' (thrown_of (Ok u)) lg2) as [r' lg3].
        exact Hx.
      * pose proof (step_exit_below _ st' (thrown_of (Raise e)) lg lg2
                      H2 Hlen Hixs) as Hx.
        destruct (step_exit clock _ st' (thrown_of (Raise e)) lg2)
          as [r' lg3].
        exact Hx.
    + cbn [snd].
      split; [exists [(_seq lg + 1, cp)]; reflexivity|].
      exists []. rewrite app_nil_r. split; [reflexivity | constructor].
    + destruct r as [x|e|]; [destruct (Hnok x); reflexivity | |];
        cbn [snd]; apply below_same; reflexivity.
  - apply below_refl.
  - apply below_refl.
  - pose proof (elapsed_keeps clock then_ lg) as (Hl & _ & Hs).
    destruct (elapsed clock then_ lg) as [r lg1]. cbn [snd] in *.
    apply below_same; assumption.
  - pose proof (eta_keeps clock pct lg) as (Hl & _ & Hs).
    destruct (eta clock pct lg) as [r lg1]. cbn [snd] in *.
    apply below_same; assumption.
Qed.


End StackFacts.




(** ** TextFilter *)

Section FilterFacts.

Variable getMessage : LogRecord -> string.

Lemma filter_loop_false (todo : list string) (record : LogRecord) :
  TextFilter.filter_loop getMessage todo record = false
  <-> exists skip,
        In skip todo /\ String.prefix skip (getMessage record) = true.
Proof.
  induction todo as [|skip rest IH]; cbn [TextFilter.filter_loop].
  - split; [discriminate | intros (s & [] & _)].
  - destruct (String.prefix skip (getMessage record)) eqn:E.
    + split; [|reflexivity]. intros _. exists skip.
      split; [left; reflexivity | exact E].
    + rewrite IH. split.
      * intros (s & Hin & Hp). exists s. split; [right; exact Hin|exact Hp].
      * intros (s & [Heq|Hin] & Hp); [subst s; congruence|].
        exists s. split; assumption.
Qed.

Lemma filter_loop_message (todo : list string) (r1 r2 : LogRecord) :
  getMessage r1 = getMessage r2 ->
  TextFilter.filter_loop getMessage todo r1
  = TextFilter.filter_loop getMessage todo r2.
Proof.
  intros Hm. induction todo as [|skip rest IH];
    cbn [TextFilter.filter_loop]; [reflexivity|].
  rewrite Hm, IH. reflexivity.
Qed.

End FilterFacts.

(** C8.  [TextFilter.filter] returns [False] exactly when the rendered
    message starts with one of the skips; the verdict depends on the
    record through its rendered message only, so not on its severity; and
    the [TextHandler] carrying the filter writes nothing for a record the
    filter rejects. *)
Theorem text_filter_rejects_prefixed (getMessage : LogRecord -> string)
    (f : TextFilter.t) (record : LogRecord) :
  (TextFilter.filter getMessage f record = false
   <-> exists skip,
         In skip (TextFilter.skips f)
         /\ String.prefix skip (getMessage record) = true)
  /\ (forall other,
         getMessage other = getMessage record ->
         TextFilter.filter getMessage f other
         = TextFilter.filter getMessage f record)
  /\ (forall stream0,
         TextFilter.filter getMessage f record = false ->
         TextHandler.handle getMessage
           (TextHandler.__init__ stream0 (TextFilter.skips f)) record
         = (false, TextHandler.__init__ stream0 (TextFilter.skips f))).
Proof.
  split; [apply filter_loop_false|].
  split; [intros other Hm; apply filter_loop_message; exact Hm|].
  intros stream0 Hrej.
  unfold TextHandler.handle, TextHandler.passes, TextHandler.__init__.
  cbn [TextHandler.filters forallb].
  unfold TextFilter.filter in *. cbn [TextFilter.skips].
  rewrite Hrej. reflexivity.
Qed.

(** An error record whose message starts with a skip is dropped like any
    other. *)
Lemma text_filter_rejects_prefixed_witness :
  TextHandler.handle msg (TextHandler.__init__ [] ["DEBUG:"%string])
    {| levelno := ERROR; msg := "DEBUG: disk full"; args := [];
       extra_of := [] |}
  = (false, TextHandler.__init__ [] ["DEBUG:"%string]).
Proof.
  exact (proj2 (proj2 (text_filter_rejects_prefixed msg
                         (TextFilter.mk ["DEBUG:"%string])
                         {| levelno := ERROR; msg := "DEBUG: disk full";
                            args := []; extra_of := [] |}))
           [] eq_refl).
Defined.

(** ** DebounceHandler *)

Lemma nth_error_update_nth {A : Type} (f : A -> A) (l : list A) :
  forall n j,
    nth_error (DebounceHandler.update_nth n f l) j
    = if Nat.eqb j n then option_map f (nth_error l j) else nth_error l j.
Proof.
  induction l as [|x l IH]; intros n j; cbn [DebounceHandler.update_nth].
  - destruct (Nat.eqb j n); destruct j; reflexivity.
  - destruct n as [|n]; destruct j as [|j]; cbn [nth_error Nat.eqb option_map];
      try reflexivity.
    apply IH.
Qed.

Lemma length_update_nth {A : Type} (f : A -> A) (l : list A) :
  forall n, List.length (DebounceHandler.update_nth n f l) = List.length l.
Proof.
  induction l as [|x l IH]; intros [|n]; cbn; try reflexivity.
  rewrite IH. reflexivity.
Qed.

Module DebounceFacts.

Import DebounceHandler.

Lemma cancel_timer_not_waiting (tm : Timer) : not_waiting (cancel_timer tm).
Proof.
  unfold not_waiting, cancel_timer.
  destruct (t_state tm) eqn:E; cbn; congruence.
Qed.

(** The loop of [flush] ends within as many iterations as the buffer has
    records, and forwards them all, oldest first. *)
Lemma flush_loop_drains (fuel : nat) :
  forall h,
    (List.length (Queue.items (buffer h)) <= fuel)%nat ->
    flush_loop fuel h = Ok (drained h).
Proof.
  induction fuel as [|fuel IH]; intros h Hlen.
  - destruct h as [hd [mx its] iv fl tm tms]. cbn in Hlen.
    destruct its; [|cbn in Hlen; lia].
    unfold drained. cbn. rewrite app_nil_r. reflexivity.
  - destruct h as [hd [mx its] iv fl tm tms].
    destruct its as [|x its].
    + unfold drained. cbn. rewrite app_nil_r. reflexivity.
    + cbn [flush_loop]. unfold Queue.empty, Queue.qsize.
      cbn [buffer Queue.items List.length].
      replace (Z.of_nat (S (List.length its)) =? 0) with false
        by (symmetry; apply Z.eqb_neq; lia).
      cbn [Queue.get Queue.items Queue.maxsize].
      rewrite IH by (cbn in Hlen |- *; lia).
      unfold drained, target_handle, set_buffer.
      cbn. rewrite <- app_assoc. reflexivity.
Qed.

Lemma flush_drains (h : t) : flush h = Ok (drained h).
Proof. unfold flush. apply flush_loop_drains. lia. Qed.

Lemma drained_empty (h : t) :
  Queue.items (buffer h) = [] -> drained h = h.
Proof.
  destruct h as [hd [mx its] iv fl tm tms]. cbn. intros ->.
  unfold drained. cbn. rewrite app_nil_r. reflexivity.
Qed.

(** [emit], spelled out on a bounded handler. *)
Lemma emit_bounded (record : LogRecord) (h : t) :
  bounded h ->
  emit record h =
    Ok (if flushLevel h <=? levelno record
        then {| handled := handled h ++ kept h ++ [record];
                buffer := Queue.mk (Queue.maxsize (buffer h)) [];
                interval := interval h; flushLevel := flushLevel h;
                _timer := _timer h; timers := after_cancel h |}
        else {| handled := handled h;
                buffer := Queue.mk (Queue.maxsize (buffer h))
                            (kept h ++ [record]);
                interval := interval h; flushLevel := flushLevel h;
                _timer := Some (List.length (after_cancel h));
                timers := after_cancel h
                          ++ [{| t_interval := interval h;
                                 t_state := Waiting |}] |}).
Proof.
  intros Hb. unfold emit, kept, after_cancel.
  destruct h as [hd [mx its] iv fl tm tms].
  unfold bounded, Queue.qsize in Hb. cbn in Hb.
  assert (Hcancel :
    buffer (match tm with
            | Some id => cancel id (mk hd (Queue.mk mx its) iv fl tm tms)
            | None => mk hd (Queue.mk mx its) iv fl tm tms
            end) = Queue.mk mx its) by (destruct tm; reflexivity).
  cbn [_timer buffer timers handled interval flushLevel].
  rewrite Hcancel.
  unfold Queue.full, Queue.put, Queue.qsize.
  cbn [Queue.maxsize Queue.items].
  destruct ((0 <? mx) && (mx <=? Z.of_nat (List.length its))) eqn:Efull.
  - apply andb_prop in Efull. destruct Efull as [Hpos Hle].
    apply Z.ltb_lt in Hpos. apply Z.leb_le in Hle.
    specialize (Hb Hpos).
    destruct its as [|x its]; [cbn in Hle; lia|].
    cbn [Queue.get_nowait Queue.items Queue.maxsize bind snd].
    cbn [List.length] in Hb.
    assert (Hroom : (0 <? mx) && (mx <=? Z.of_nat (List.length its))
                    = false)
      by (apply andb_false_iff; right; apply Z.leb_gt; lia).
    destruct tm as [id|];
      cbn [bind set_buffer cancel set_timers buffer Queue.maxsize
           Queue.items flushLevel handled interval _timer timers tl];
      rewrite Hroom; cbn [bind];
      (destruct (fl <=? levelno record);
       [rewrite flush_drains; unfold drained; cbn; reflexivity
       | unfold start, set_timer, set_timers; cbn; reflexivity]).
  - destruct tm as [id|];
      cbn [bind set_buffer cancel set_timers buffer Queue.maxsize
           Queue.items flushLevel handled interval _timer timers];
      rewrite Efull;
      cbn [bind set_buffer cancel set_timers buffer Queue.maxsize
           Queue.items flushLevel handled interval _timer timers];
      (destruct (fl <=? levelno record);
       [rewrite flush_drains; unfold drained; cbn; reflexivity
       | unfold start, set_timer, set_timers; cbn; reflexivity]).
Qed.

End DebounceFacts.

Module DebounceInvariants.

Import DebounceHandler DebounceFacts.

Lemma quiet_single (h : t) :
  Forall not_waiting (timers h) -> single_waiting h.
Proof.
  intros Hq id tm Hnth Hw. apply nth_error_In in Hnth.
  rewrite Forall_forall in Hq. destruct (Hq tm Hnth Hw).
Qed.

(** Once the timer [_timer] refers to is cancelled, none is waiting. *)
Lemma after_cancel_quiet (h : t) :
  single_waiting h -> Forall not_waiting (after_cancel h).
Proof.
  intros Hs. apply Forall_forall. intros tm Hin.
  apply In_nth_error in Hin. destruct Hin as [j Hj].
  unfold after_cancel in Hj. intros Hw.
  destruct (_timer h) as [id|] eqn:Et.
  - rewrite nth_error_update_nth in Hj.
    destruct (Nat.eqb j id) eqn:Ej.
    + destruct (nth_error (timers h) j) as [tm0|]; [|discriminate].
      cbn in Hj. assert (Htm : cancel_timer tm0 = tm) by congruence.
      rewrite <- Htm in Hw.
      exact (cancel_timer_not_waiting tm0 Hw).
    + specialize (Hs j tm Hj Hw).
      assert (Hsame : j = id) by congruence.
      rewrite Hsame, Nat.eqb_refl in Ej. discriminate.
  - specialize (Hs j tm Hj Hw). congruence.
Qed.

End DebounceInvariants.

Module DebounceRuns.

Import DebounceHandler DebounceFacts DebounceInvariants.

Lemma kept_room (h : t) (record : LogRecord) :
  bounded h ->
  0 < Queue.maxsize (buffer h) ->
  Z.of_nat (List.length (kept h ++ [record])) <= Queue.maxsize (buffer h).
Proof.
  intros Hb Hpos. specialize (Hb Hpos).
  unfold kept, Queue.full, Queue.qsize in *.
  rewrite length_app. cbn [List.length].
  destruct ((0 <? Queue.maxsize (buffer h))
            && (Queue.maxsize (buffer h)
                <=? Z.of_nat (List.length (Queue.items (buffer h)))))
    eqn:Efull.
  - apply andb_prop in Efull. destruct Efull as [_ Hle].
    apply Z.leb_le in Hle.
    destruct (Queue.items (buffer h)) as [|x its]; cbn in *; lia.
  - apply andb_false_iff in Efull. destruct Efull as [Hf|Hf].
    + apply Z.ltb_ge in Hf. lia.
    + apply Z.leb_gt in Hf. lia.
Qed.

Lemma drained_bounded (h : t) : bounded (drained h).
Proof. unfold bounded, drained, Queue.qsize. cbn. lia. Qed.

Lemma emit_preserves (record : LogRecord) (h : t) :
  bounded h ->
  exists h',
    emit record h = Ok h'
    /\ bounded h'
    /\ Queue.maxsize (buffer h') = Queue.maxsize (buffer h)
    /\ (single_waiting h -> single_waiting h').
Proof.
  intros Hb. rewrite (emit_bounded record h Hb).
  eexists. split; [reflexivity|].
  destruct (flushLevel h <=? levelno record).
  - split; [unfold bounded, Queue.qsize; cbn; lia|].
    split; [reflexivity|].
    intros Hs. apply quiet_single. cbn [timers].
    apply after_cancel_quiet. exact Hs.
  - split; [unfold bounded, Queue.qsize; cbn [buffer Queue.maxsize
                                                Queue.items];
            intros Hpos; apply kept_room; assumption|].
    split; [reflexivity|].
    intros Hs j tm Hnth Hw. cbn [timers _timer] in *.
    pose proof (after_cancel_quiet h Hs) as Hq.
    destruct (Nat.lt_ge_cases j (List.length (after_cancel h))) as [Hlt|Hge].
    + rewrite nth_error_app1 in Hnth by exact Hlt.
      apply nth_error_In in Hnth. rewrite Forall_forall in Hq.
      destruct (Hq tm Hnth Hw).
    + rewrite nth_error_app2 in Hnth by exact Hge.
      destruct (j - List.length (after_cancel h))%nat as [|d] eqn:Ed.
      * f_equal. lia.
      * destruct d; discriminate.
Qed.

Lemma stop_drains (h : t) :
  stop h = Ok {| handled := handled h ++ Queue.items (buffer h);
                 buffer := Queue.mk (Queue.maxsize (buffer h)) [];
                 interval := interval h; flushLevel := flushLevel h;
                 _timer := None; timers := after_cancel h |}.
Proof.
  unfold stop, after_cancel. rewrite flush_drains.
  destruct h as [hd q iv fl [id|] tms]; reflexivity.
Qed.

Lemma fire_cases (id : nat) (h : t) :
  (exists i,
      nth_error (timers h) id = Some {| t_interval := i; t_state := Waiting |}
      /\ fire id h
         = Ok (drained
                 (set_timers h
                    (update_nth id
                       (fun _ => {| t_interval := i; t_state := Fired |})
                       (timers h)))))
  \/ fire id h = Ok h.
Proof.
  unfold fire.
  destruct (nth_error (timers h) id) as [[i []]|]; try (right; reflexivity).
  left. exists i. split; [reflexivity | apply flush_drains].
Qed.

Lemma apply_op_preserves (o : op) (h : t) :
  bounded h ->
  exists h',
    apply_op o h = Ok h'
    /\ bounded h'
    /\ Queue.maxsize (buffer h') = Queue.maxsize (buffer h)
    /\ (not_start o = true -> single_waiting h -> single_waiting h').
Proof.
  intros Hb. destruct o as [record| | | |id]; cbn [apply_op not_start].
  - destruct (emit_preserves record h Hb) as (h' & He & Hb' & Hm & Hs).
    exists h'. repeat split; auto.
  - rewrite flush_drains. eexists. split; [reflexivity|].
    split; [apply drained_bounded|]. split; [reflexivity|].
    intros _ Hs. exact Hs.
  - eexists. split; [reflexivity|].
    split; [exact Hb|]. split; [reflexivity|]. discriminate.
  - rewrite stop_drains. eexists. split; [reflexivity|].
    split; [unfold bounded, Queue.qsize; cbn; lia|].
    split; [reflexivity|].
    intros _ Hs. apply quiet_single. cbn [timers].
    apply after_cancel_quiet. exact Hs.
  - destruct (fire_cases id h) as [(i & Hnth & Hf)|Hf]; rewrite Hf.
    + eexists. split; [reflexivity|].
      split; [apply drained_bounded|]. split; [reflexivity|].
      intros _ Hs j tm Hj Hw. cbn [drained set_timers timers _timer] in *.
      rewrite nth_error_update_nth in Hj.
      destruct (Nat.eqb j id) eqn:Ej.
      * destruct (nth_error (timers h) j); [|discriminate].
        cbn in Hj. assert (Htm : tm = {| t_interval := i; t_state := Fired |})
          by congruence.
        rewrite Htm in Hw. discriminate.
      * exact (Hs j tm Hj Hw).
    + exists h. repeat split; auto.
Qed.

Lemma run_preserves (ops : list op) :
  forall h,
    bounded h ->
    exists h',
      run ops h = Ok h'
      /\ bounded h'
      /\ Queue.maxsize (buffer h') = Queue.maxsize (buffer h)
      /\ (forallb not_start ops = true ->
          single_waiting h -> single_waiting h').
Proof.
  induction ops as [|o ops IH]; intros h Hb; cbn [run forallb].
  - exists h. repeat split; auto.
  - destruct (apply_op_preserves o h Hb) as (h1 & H1 & Hb1 & Hm1 & Hs1).
    rewrite H1. cbn [bind].
    destruct (IH h1 Hb1) as (h' & H' & Hb' & Hm' & Hs').
    exists h'. split; [exact H'|]. split; [exact Hb'|].
    split; [congruence|].
    intros Hns Hs. apply andb_prop in Hns. destruct Hns as [Ho Hrest].
    auto.
Qed.

Lemma init_bounded (capacity : Z) (i : float) (level : Z)
    (handled0 : list LogRecord) :
  bounded (__init__ capacity i level handled0)
  /\ single_waiting (__init__ capacity i level handled0).
Proof.
  split.
  - unfold bounded, Queue.qsize. cbn. lia.
  - intros [|[|j]] tm Hnth Hw; cbn in *; [reflexivity|discriminate..].
Qed.

End DebounceRuns.

(** C3.  A handler built with a capacity [C > 0] answers every call
    ([emit], [flush], [start], [stop], a timer running out) without raising
    or hanging, and its buffer never holds more than [C] records; [put]
    itself never lets a queue grow past its [maxsize].  When [emit] finds
    the buffer at capacity it drops the oldest record and appends the new
    one: below the flush level the buffer is then the other records
    followed by the new one, and at or above it exactly those are
    forwarded, in that order. *)
Theorem buffer_bounded_fifo_eviction (capacity : Z) (interval0 : float)
    (flushLevel0 : Z) (handled0 : list LogRecord)
    (ops : list DebounceHandler.op) :
  0 < capacity ->
  (exists h,
      DebounceHandler.run ops
        (DebounceHandler.__init__ capacity interval0 flushLevel0 handled0)
      = Ok h
      /\ Queue.maxsize (DebounceHandler.buffer h) = capacity
      /\ Queue.qsize (DebounceHandler.buffer h) <= capacity)
  /\ (forall (q q' : Queue.t LogRecord) x,
         Queue.maxsize q = capacity -> Queue.put x q = Ok q' ->
         Queue.qsize q' <= capacity)
  /\ (forall h record oldest rest,
         Queue.maxsize (DebounceHandler.buffer h) = capacity ->
         Queue.qsize (DebounceHandler.buffer h) = capacity ->
         Queue.items (DebounceHandler.buffer h) = oldest :: rest ->
         exists h',
           DebounceHandler.emit record h = Ok h'
           /\ (levelno record < DebounceHandler.flushLevel h ->
               Queue.items (DebounceHandler.buffer h') = rest ++ [record]
               /\ DebounceHandler.handled h' = DebounceHandler.handled h)
           /\ (DebounceHandler.flushLevel h <= levelno record ->
               Queue.items (DebounceHandler.buffer h') = []
               /\ DebounceHandler.handled h'
                  = DebounceHandler.handled h ++ rest ++ [record])).
Proof.
  intros Hpos. split; [|split].
  - destruct (DebounceRuns.init_bounded capacity interval0 flushLevel0
                handled0) as [Hb _].
    destruct (DebounceRuns.run_preserves ops _ Hb) as (h & Hrun & Hb' & Hm & _).
    exists h. split; [exact Hrun|].
    cbn in Hm. split; [exact Hm|].
    unfold DebounceHandler.bounded in Hb'. rewrite Hm in Hb'. auto.
  - intros q q' x Hm Hput. unfold Queue.put in Hput.
    destruct ((0 <? Queue.maxsize q) && (Queue.maxsize q <=? Queue.qsize q))
      eqn:Efull; [discriminate|].
    injection Hput as <-. unfold Queue.qsize in *.
    cbn [Queue.items]. rewrite length_app. cbn [List.length].
    apply andb_false_iff in Efull. destruct Efull as [Hf|Hf].
    + apply Z.ltb_ge in Hf. lia.
    + apply Z.leb_gt in Hf. lia.
  - intros h record oldest rest Hm Hq Hitems.
    assert (Hb : DebounceHandler.bounded h)
      by (unfold DebounceHandler.bounded; lia).
    rewrite (DebounceFacts.emit_bounded record h Hb).
    assert (Hkept : DebounceHandler.kept h = rest).
    { unfold DebounceHandler.kept, Queue.full.
      replace ((0 <? Queue.maxsize (DebounceHandler.buffer h))
               && (Queue.maxsize (DebounceHandler.buffer h)
                   <=? Queue.qsize (DebounceHandler.buffer h))) with true
        by (symmetry; apply andb_true_intro; split;
            [apply Z.ltb_lt | apply Z.leb_le]; lia).
      rewrite Hitems. reflexivity. }
    rewrite Hkept. eexists. split; [reflexivity|].
    split; intros Hlev.
    + replace (DebounceHandler.flushLevel h <=? levelno record) with false
        by (symmetry; apply Z.leb_gt; exact Hlev).
      split; reflexivity.
    + replace (DebounceHandler.flushLevel h <=? levelno record) with true
        by (symmetry; apply Z.leb_le; exact Hlev).
      split; reflexivity.
Qed.

(** Three quick records into a handler of capacity 2: the first one is
    gone. *)
Lemma buffer_bounded_fifo_eviction_witness :
  exists h,
    DebounceHandler.run
      [DebounceHandler.Emit (Samples.record INFO "quick one");
       DebounceHandler.Emit (Samples.record INFO "quick two");
       DebounceHandler.Emit (Samples.record INFO "slow one")]
      Samples.debounce2 = Ok h
    /\ Queue.maxsize (DebounceHandler.buffer h) = 2
    /\ Queue.qsize (DebounceHandler.buffer h) <= 2.
Proof.
  exact (proj1 (buffer_bounded_fifo_eviction 2 0.5%float WARN []
                  [DebounceHandler.Emit (Samples.record INFO "quick one");
                   DebounceHandler.Emit (Samples.record INFO "quick two");
                   DebounceHandler.Emit (Samples.record INFO "slow one")]
                  eq_refl)).
Defined.

(** A queue built with [maxsize=0] is unbounded, so the bound needs
    [C > 0]. *)
Lemma capacity_zero_unbounded :
  exists h,
    DebounceHandler.emit (Samples.record INFO "quick one")
      (DebounceHandler.__init__ 0 0.5%float WARN []) = Ok h
    /\ Queue.qsize (DebounceHandler.buffer h) = 1.
Proof. eexists. split; reflexivity. Qed.

(** C4 (as amended).  Take a handler in any state it can get into from
    its constructor.  [emit] cancels the timer [_timer] refers to, and no
    other: every other timer is left as it was.  For a record at or above
    [flushLevel] it then forwards, within the call, what it kept of the
    buffer followed by the new record, and creates no timer.  For a record
    below [flushLevel] it forwards nothing, buffers the record and starts
    one new timer of length [interval].  If [start()] was never called
    from outside, no timer other than that new one is left waiting. *)
Theorem emit_flushes_or_schedules (capacity : Z) (interval0 : float)
    (flushLevel0 : Z) (handled0 : list LogRecord)
    (ops : list DebounceHandler.op) (h : DebounceHandler.t)
    (record : LogRecord) :
  DebounceHandler.run ops
    (DebounceHandler.__init__ capacity interval0 flushLevel0 handled0)
  = Ok h ->
  exists h',
    DebounceHandler.emit record h = Ok h'
    /\ (forall id tm,
           DebounceHandler._timer h = Some id ->
           nth_error (DebounceHandler.after_cancel h) id = Some tm ->
           DebounceHandler.not_waiting tm)
    /\ (DebounceHandler.flushLevel h <= levelno record ->
        DebounceHandler.handled h'
          = DebounceHandler.handled h ++ DebounceHandler.kept h ++ [record]
        /\ Queue.items (DebounceHandler.buffer h') = []
        /\ DebounceHandler.timers h' = DebounceHandler.after_cancel h
        /\ List.length (DebounceHandler.timers h')
           = List.length (DebounceHandler.timers h))
    /\ (levelno record < DebounceHandler.flushLevel h ->
        DebounceHandler.handled h' = DebounceHandler.handled h
        /\ Queue.items (DebounceHandler.buffer h')
           = DebounceHandler.kept h ++ [record]
        /\ DebounceHandler.timers h'
           = DebounceHandler.after_cancel h
             ++ [{| DebounceHandler.t_interval := DebounceHandler.interval h;
                    DebounceHandler.t_state := DebounceHandler.Waiting |}]
        /\ DebounceHandler._timer h'
           = Some (List.length (DebounceHandler.timers h)))
    /\ (forallb DebounceHandler.not_start ops = true ->
        Forall DebounceHandler.not_waiting (DebounceHandler.after_cancel h))
    /\ (forall j,
           DebounceHandler._timer h <> Some j ->
           nth_error (DebounceHandler.after_cancel h) j
           = nth_error (DebounceHandler.timers h) j).
Proof.
  intros Hrun.
  destruct (DebounceRuns.init_bounded capacity interval0 flushLevel0
              handled0) as [Hb0 Hs0].
  destruct (DebounceRuns.run_preserves ops _ Hb0)
    as (h0 & Hrun0 & Hb & _ & Hs).
  rewrite Hrun in Hrun0. injection Hrun0 as <-.
  assert (Hlen : List.length (DebounceHandler.after_cancel h)
                 = List.length (DebounceHandler.timers h)).
  { unfold DebounceHandler.after_cancel.
    destruct (DebounceHandler._timer h); [apply length_update_nth|];
      reflexivity. }
  rewrite (DebounceFacts.emit_bounded record h Hb).
  eexists. split; [reflexivity|]. split; [|split; [|split; [|split]]].
  - intros id tm Hid Hnth. unfold DebounceHandler.after_cancel in Hnth.
    rewrite Hid, nth_error_update_nth, Nat.eqb_refl in Hnth.
    destruct (nth_error (DebounceHandler.timers h) id) as [tm0|];
      [|discriminate].
    cbn in Hnth. assert (Htm : DebounceHandler.cancel_timer tm0 = tm)
      by congruence.
    rewrite <- Htm. apply DebounceFacts.cancel_timer_not_waiting.
  - intros Hlev.
    replace (DebounceHandler.flushLevel h <=? levelno record) with true
      by (symmetry; apply Z.leb_le; exact Hlev).
    cbn. repeat split; assumption.
  - intros Hlev.
    replace (DebounceHandler.flushLevel h <=? levelno record) with false
      by (symmetry; apply Z.leb_gt; exact Hlev).
    cbn. rewrite Hlen. repeat split.
  - intros Hns. apply DebounceInvariants.after_cancel_quiet.
    exact (Hs Hns Hs0).
  - intros j Hj. unfold DebounceHandler.after_cancel.
    destruct (DebounceHandler._timer h) as [id|]; [|reflexivity].
    rewrite nth_error_update_nth.
    destruct (Nat.eqb j id) eqn:Ej; [|reflexivity].
    apply Nat.eqb_eq in Ej. subst j. destruct Hj. reflexivity.
Qed.

(** An error record after a quiet one, on the default handler: both are
    forwarded at once and no timer is left waiting. *)
Lemma emit_flushes_or_schedules_witness :
  exists h h',
    DebounceHandler.run
      [DebounceHandler.Emit (Samples.record INFO "quick one")]
      Samples.debounce2 = Ok h
    /\ DebounceHandler.emit (Samples.record ERROR "disk full") h = Ok h'
    /\ DebounceHandler.handled h'
       = [Samples.record INFO "quick one"; Samples.record ERROR "disk full"]
    /\ Forall DebounceHandler.not_waiting (DebounceHandler.timers h').
Proof.
  eexists.
  destruct (emit_flushes_or_schedules 2 0.5%float WARN []
              [DebounceHandler.Emit (Samples.record INFO "quick one")]
              _ (Samples.record ERROR "disk full") eq_refl)
    as (h' & He & _ & Hhigh & _ & Hquiet & _).
  exists h'. split; [reflexivity|]. split; [exact He|].
  destruct (Hhigh ltac:(vm_compute; discriminate)) as (Hh & _ & Ht & _).
  split; [exact Hh|].
  rewrite Ht. exact (Hquiet eq_refl).
Defined.

(** C4, as stated, fails: [emit] does not cancel any pending timer, only
    the one [_timer] refers to.  [start()] does not cancel the timer it
    replaces; called from outside, as the module's integration test does
    right after the constructor, it leaves the constructor's timer where
    [emit] cannot reach it.  Here that timer is still waiting after an
    error record was emitted and forwarded. *)
Lemma direct_start_orphans_timer :
  exists h,
    DebounceHandler.run
      [DebounceHandler.Start;
       DebounceHandler.Emit (Samples.record ERROR "disk full")]
      Samples.debounce2 = Ok h
    /\ DebounceHandler.handled h = [Samples.record ERROR "disk full"]
    /\ DebounceHandler.timers h
       = [{| DebounceHandler.t_interval := 0.5%float;
             DebounceHandler.t_state := DebounceHandler.Waiting |};
          {| DebounceHandler.t_interval := 0.5%float;
             DebounceHandler.t_state := DebounceHandler.Cancelled |}].
Proof. eexists. repeat split. Qed.

(** C5, as stated, fails: after [stop()] an [emit] below the flush level
    is neither refused nor a no-op, and it starts a timer.  Here the first
    timer is the constructor's, cancelled by [stop]; the second one is
    started by the [emit] that follows and is left waiting. *)
Lemma emit_after_stop_starts_timer :
  exists h1 h2,
    DebounceHandler.stop Samples.debounce2 = Ok h1
    /\ DebounceHandler.emit (Samples.record INFO "last one") h1 = Ok h2
    /\ DebounceHandler.timers h1
       = [{| DebounceHandler.t_interval := 0.5%float;
             DebounceHandler.t_state := DebounceHandler.Cancelled |}]
    /\ DebounceHandler.timers h2
       = [{| DebounceHandler.t_interval := 0.5%float;
             DebounceHandler.t_state := DebounceHandler.Cancelled |};
          {| DebounceHandler.t_interval := 0.5%float;
             DebounceHandler.t_state := DebounceHandler.Waiting |}]
    /\ DebounceHandler._timer h2 = Some 1%nat
    /\ Queue.items (DebounceHandler.buffer h2)
       = [Samples.record INFO "last one"].
Proof. eexists _, _. repeat split. Qed.

(** C5 (as amended).  [stop()] cancels the timer [_timer] refers to,
    forgets it and forwards the buffer; it does not close the handler.  An
    [emit] after it behaves as at any other time: a record below
    [flushLevel] is buffered and a new timer of length [interval] is
    started, a record at or above [flushLevel] is forwarded at once and no
    timer is started. *)
Theorem stop_leaves_handler_open (h : DebounceHandler.t)
    (record : LogRecord) :
  exists h1,
    DebounceHandler.stop h = Ok h1
    /\ DebounceHandler._timer h1 = None
    /\ DebounceHandler.timers h1 = DebounceHandler.after_cancel h
    /\ Queue.items (DebounceHandler.buffer h1) = []
    /\ DebounceHandler.handled h1
       = DebounceHandler.handled h
         ++ Queue.items (DebounceHandler.buffer h)
    /\ exists h2,
        DebounceHandler.emit record h1 = Ok h2
        /\ (levelno record < DebounceHandler.flushLevel h ->
            Queue.items (DebounceHandler.buffer h2) = [record]
            /\ DebounceHandler.handled h2 = DebounceHandler.handled h1
            /\ DebounceHandler.timers h2
               = DebounceHandler.timers h1
                 ++ [{| DebounceHandler.t_interval :=
                          DebounceHandler.interval h;
                        DebounceHandler.t_state :=
                          DebounceHandler.Waiting |}]
            /\ DebounceHandler._timer h2
               = Some (List.length (DebounceHandler.timers h1)))
        /\ (DebounceHandler.flushLevel h <= levelno record ->
            Queue.items (DebounceHandler.buffer h2) = []
            /\ DebounceHandler.handled h2
               = DebounceHandler.handled h1 ++ [record]
            /\ DebounceHandler.timers h2 = DebounceHandler.timers h1).
Proof.
  rewrite DebounceRuns.stop_drains. eexists. split; [reflexivity|].
  cbn [DebounceHandler._timer DebounceHandler.timers DebounceHandler.buffer
       DebounceHandler.handled Queue.items].
  repeat (split; [reflexivity|]).
  match goal with
  | |- exists h2, DebounceHandler.emit record ?x = _ /\ _ =>
      assert (Hb : DebounceHandler.bounded x)
        by (unfold DebounceHandler.bounded, Queue.qsize; cbn; lia);
      rewrite (DebounceFacts.emit_bounded record x Hb)
  end.
  eexists. split; [reflexivity|].
  assert (Hkept : forall hd mx iv fl tms,
             DebounceHandler.kept
               (DebounceHandler.mk hd (Queue.mk mx []) iv fl None tms) = []).
  { intros. unfold DebounceHandler.kept, Queue.full, Queue.qsize. cbn.
    destruct ((0 <? mx) && (mx <=? 0)); reflexivity. }
  cbn [DebounceHandler.flushLevel DebounceHandler.interval].
  split; intros Hlev.
  - replace (DebounceHandler.flushLevel h <=? levelno record) with false
      by (symmetry; apply Z.leb_gt; exact Hlev).
    cbn. rewrite Hkept. repeat split.
  - replace (DebounceHandler.flushLevel h <=? levelno record) with true
      by (symmetry; apply Z.leb_le; exact Hlev).
    cbn. rewrite Hkept. repeat split.
Qed.

(** C9.  [flush()] on an empty buffer forwards nothing and changes
    nothing; [stop()] returns, and a second [stop()] right after it
    returns too, forwards nothing and leaves the handler as the first one
    left it. *)
Theorem flush_empty_and_stop_twice :
  (forall h,
      Queue.items (DebounceHandler.buffer h) = [] ->
      DebounceHandler.flush h = Ok h)
  /\ (forall h,
         exists h1,
           DebounceHandler.stop h = Ok h1
           /\ DebounceHandler.stop h1 = Ok h1
           /\ DebounceHandler.handled h1
              = DebounceHandler.handled h
                ++ Queue.items (DebounceHandler.buffer h)).
Proof.
  split.
  - intros h Hempty. rewrite DebounceFacts.flush_drains.
    rewrite (DebounceFacts.drained_empty h Hempty). reflexivity.
  - intros h. rewrite DebounceRuns.stop_drains.
    eexists. split; [reflexivity|].
    split; [|reflexivity].
    rewrite DebounceRuns.stop_drains.
    unfold DebounceHandler.after_cancel. cbn. rewrite app_nil_r.
    reflexivity.
Qed.

(** Two records buffered, then [stop()] twice: both are forwarded by the
    first [stop()], none by the second. *)
Lemma flush_empty_and_stop_twice_witness :
  exists h0 h1,
    DebounceHandler.run
      [DebounceHandler.Emit (Samples.record INFO "quick one");
       DebounceHandler.Emit (Samples.record INFO "quick two")]
      Samples.debounce2 = Ok h0
    /\ DebounceHandler.stop h0 = Ok h1
    /\ DebounceHandler.stop h1 = Ok h1
    /\ DebounceHandler.flush h1 = Ok h1
    /\ DebounceHandler.handled h1
       = [Samples.record INFO "quick one"; Samples.record INFO "quick two"].
Proof.
  eexists.
  destruct (proj2 flush_empty_and_stop_twice
              {| DebounceHandler.handled := [];
                 DebounceHandler.buffer :=
                   Queue.mk 2 [Samples.record INFO "quick one";
                               Samples.record INFO "quick two"];
                 DebounceHandler.interval := 0.5%float;
                 DebounceHandler.flushLevel := WARN;
                 DebounceHandler._timer := Some 2%nat;
                 DebounceHandler.timers :=
                   [{| DebounceHandler.t_interval := 0.5%float;
                       DebounceHandler.t_state := DebounceHandler.Cancelled |};
                    {| DebounceHandler.t_interval := 0.5%float;
                       DebounceHandler.t_state := DebounceHandler.Cancelled |};
                    {| DebounceHandler.t_interval := 0.5%float;
                       DebounceHandler.t_state := DebounceHandler.Waiting |}]
              |}) as (h1 & Hs1 & Hs2 & Hh).
  exists h1. split; [reflexivity|].
  split; [exact Hs1|]. split; [exact Hs2|].
  split; [|exact Hh].
  apply (proj1 flush_empty_and_stop_twice).
  rewrite DebounceRuns.stop_drains in Hs1.
  injection Hs1 as <-. reflexivity.
Defined.

(** The amended C5 on the default handler: the [emit] after [stop()]
    leaves a second timer behind. *)
Lemma stop_leaves_handler_open_witness :
  exists h1 h2,
    DebounceHandler.stop Samples.debounce2 = Ok h1
    /\ DebounceHandler.emit (Samples.record INFO "last one") h1 = Ok h2
    /\ List.length (DebounceHandler.timers h2)
       = S (List.length (DebounceHandler.timers h1)).
Proof.
  destruct (stop_leaves_handler_open Samples.debounce2
              (Samples.record INFO "last one"))
    as (h1 & Hs & _ & _ & _ & _ & h2 & He & Hlow & _).
  exists h1, h2. split; [exact Hs|]. split; [exact He|].
  destruct (Hlow ltac:(vm_compute; reflexivity)) as (_ & _ & Ht & _).
  rewrite Ht, length_app. cbn. lia.
Defined.

(** ** Rounding and the doctest *)

(** The factor is the binary64 value of [1 / (pct / 100)], which need not
    be that of [100 / pct]: for 7 percent they are one unit in the last
    place apart.  A positive [pct] so small that [pct / 100] rounds to
    zero makes [eta] raise. *)
Lemma eta_factor_is_rounded :
  eta_factor 7 = Ok 0x1.c924924924924p+3%float
  /\ PrimFloat.div 100 7 = 0x1.c924924924925p+3%float
  /\ PrimFloat.ltb 0 (Z.ldexp 1 (-1074)) = true
  /\ eta_factor (Z.ldexp 1 (-1074)) = Raise ZeroDivisionError.
Proof. repeat split; vm_compute; reflexivity. Qed.

(** The doctest hands out the sequence numbers 1, 2 and 3. *)
Lemma doctest_sequence_numbers :
  option_map (fun lg => assigned (EventLogger.logged lg)) Doctest.at_eta
  = Some [1; 2; 3].
Proof. vm_compute. reflexivity. Qed.

(** * More of the module *)

(** ** Scopes: outcome, records and messages *)

Lemma well_nested_app (base : list Z) (l1 l2 : list LogRecord) :
  well_nested base l1 -> well_nested base l2 -> well_nested base (l1 ++ l2).
Proof.
  intros H1 H2.
  induction H1 as [base|base q rb inner re rest Hb Hcb Hi _ He Hce Hr IH].
  - exact H2.
  - cbn [app]. rewrite <- app_assoc. cbn [app].
    apply wn_step with (q := q); auto.
Qed.

Section ScopeRuns.

Context {K : Type}.
Variable clock : K -> result datetime * K.

Import EventLogger.

Lemma keeps_context_refl (lg : t K) : keeps_context lg lg.
Proof.
  split; [reflexivity|]. exists []. rewrite app_nil_r.
  split; [reflexivity | constructor].
Qed.

Lemma keeps_context_trans (lg1 lg2 lg3 : t K) :
  keeps_context lg1 lg2 -> keeps_context lg2 lg3 -> keeps_context lg1 lg3.
Proof.
  intros (E1 & n1 & L1 & F1) (E2 & n2 & L2 & F2).
  split; [congruence|]. exists (n1 ++ n2).
  split; [rewrite L2, L1, app_assoc; reflexivity|].
  apply Forall_app. split; [exact F1|]. rewrite <- E1. exact F2.
Qed.

Lemma keeps_context_quiet (lg lg' : t K) :
  event lg' = event lg -> logged lg' = logged lg -> keeps_context lg lg'.
Proof.
  intros He Hl. split; [exact He|]. exists []. rewrite app_nil_r.
  split; [exact Hl | constructor].
Qed.

Lemma step_enter_keeps_context (m : string) (a : dict) (ex : option dict)
    (lg : t K) :
  keeps_context lg (snd (step_enter clock m a ex lg)).
Proof.
  destruct (step_enter_cases clock m a ex lg)
    as [(cp & k' & rb & _ & _ & He & _ & _ & _ & _ & _ & Hc & _)
       | [(cp & k' & _ & _ & He) | (r & k' & He & _ & _)]];
    rewrite He; cbn [snd].
  - split; [reflexivity|]. exists [rb]. split; [reflexivity|].
    constructor; [exact Hc | constructor].
  - apply keeps_context_quiet; reflexivity.
  - apply keeps_context_quiet; reflexivity.
Qed.

Lemma step_exit_keeps_context (fr : frame) (st : LogState)
    (thrown : option exn) (lg : t K) :
  keeps_context lg (snd (step_exit clock fr st thrown lg)).
Proof.
  destruct (step_exit_cases clock fr st thrown lg)
    as [(now & k' & re & _ & _ & He & _ & _ & _ & _ & _ & Hc & _)
       | [(now & k' & _ & _ & He) | (r & k' & He & _ & _)]];
    rewrite He; cbn [snd].
  - split; [reflexivity|]. exists [re]. split; [reflexivity|].
    constructor; [exact Hc | constructor].
  - apply keeps_context_quiet; reflexivity.
  - apply keeps_context_quiet; reflexivity.
Qed.

Lemma elapsed_keeps_event (then_ : option datetime) (lg : t K) :
  event (snd (elapsed clock then_ lg)) = event lg.
Proof.
  unfold elapsed, call_clock.
  destruct then_ as [d|]; [|destruct (py_last (_step lg)) as [f| |]];
    cbn [bind]; try reflexivity;
    destruct (clock (_clock lg)) as [[now|e|] k']; reflexivity.
Qed.

Lemma eta_keeps_event (pct : float) (lg : t K) :
  event (snd (eta clock pct lg)) = event lg.
Proof.
  unfold eta, call_clock.
  destruct (py_first (_step lg)) as [[q0 t0]| |]; try reflexivity;
    destruct (clock (_clock lg)) as [[now|e|] k']; reflexivity.
Qed.

Lemma exec_keeps_context (c : cmd) :
  forall (h : LogState) (lg : t K),
    keeps_context lg (snd (exec clock c h lg)).
Proof.
  induction c as [ | c1 IH1 c2 IH2 | e | c1 IH1 c2 IH2 | m a ex body IH
                 | s | k v | then_ | pct ];
    intros h lg; cbn [exec].
  - apply keeps_context_refl.
  - specialize (IH1 h lg).
    destruct (exec clock c1 h lg) as [[r1 h1] lg1]. cbn [snd] in IH1.
    destruct r1; cbn [snd]; try exact IH1.
    eapply keeps_context_trans; [exact IH1 | apply IH2].
  - apply keeps_context_refl.
  - specialize (IH1 h lg).
    destruct (exec clock c1 h lg) as [[r1 h1] lg1]. cbn [snd] in IH1.
    destruct r1; cbn [snd]; try exact IH1.
    eapply keeps_context_trans; [exact IH1 | apply IH2].
  - pose proof (step_enter_keeps_context m a ex lg) as He.
    destruct (step_enter clock m a ex lg) as [[[fr st]|e|] lg1];
      cbn [snd] in He |- *; try exact He.
    specialize (IH st lg1).
    destruct (exec clock body st lg1) as [[r st'] lg2]. cbn [snd] in IH.
    pose proof (keeps_context_trans _ _ _ He IH) as H2.
    destruct r as [u|e|]; cbn [snd]; try exact H2.
    + pose proof (step_exit_keeps_context fr st' (thrown_of (Ok u)) lg2)
        as Hx.
      destruct (step_exit clock fr st' (thrown_of (Ok u)) lg2) as [r' lg3].
      cbn [snd] in Hx |- *. eapply keeps_context_trans; eassumption.
    + pose proof (step_exit_keeps_context fr st' (thrown_of (Raise e)) lg2)
        as Hx.
      destruct (step_exit clock fr st' (thrown_of (Raise e)) lg2)
        as [r' lg3].
      cbn [snd] in Hx |- *. eapply keeps_context_trans; eassumption.
  - apply keeps_context_refl.
  - apply keeps_context_refl.
  - pose proof (elapsed_keeps clock then_ lg) as (Hl & _ & _).
    pose proof (elapsed_keeps_event then_ lg) as He.
    destruct (elapsed clock then_ lg) as [r lg1]. cbn [snd] in *.
    apply keeps_context_quiet; assumption.
  - pose proof (eta_keeps clock pct lg) as (Hl & _ & _).
    pose proof (eta_keeps_event pct lg) as He.
    destruct (eta clock pct lg) as [r lg1]. cbn [snd] in *.
    apply keeps_context_quiet; assumption.
Qed.

End ScopeRuns.

Section NestingFacts.

Context {K : Type}.
Variable clock : K -> result datetime * K.

Import EventLogger.

Lemma stack_same (l more : list (Z * datetime)) :
  l ++ more = l -> more = [].
Proof.
  intros H. apply (app_inv_head l). rewrite app_nil_r. exact H.
Qed.

(** A program that leaves the stack as it found it has closed every scope
    it opened, and its records are well nested. *)
Lemma exec_balanced (c : cmd) :
  forall (h : LogState) (lg : t K) (r : result unit) (h' : LogState)
         (lg' : t K),
    exec clock c h lg = (r, h', lg') ->
    _step lg' = _step lg ->
    exists new,
      logged lg' = logged lg ++ new
      /\ well_nested (map fst (_step lg)) new.
Proof.
  induction c as [ | c1 IH1 c2 IH2 | e | c1 IH1 c2 IH2 | m a ex body IH
                 | s | k v | then_ | pct ];
    intros h lg r h' lg' Hrun Hbal.
  - cbn [exec] in Hrun. inversion Hrun; subst. exists [].
    rewrite app_nil_r. split; [reflexivity | constructor].
  - cbn [exec] in Hrun.
    destruct (exec clock c1 h lg) as [[r1 h1] lg1] eqn:E1.
    pose proof (exec_below clock c1 h lg) as B1.
    rewrite E1 in B1. cbn [snd] in B1. destruct B1 as ((m1 & S1) & _).
    destruct r1 as [u|e|];
      try (inversion Hrun; subst; exact (IH1 _ _ _ _ _ E1 Hbal)).
    pose proof (exec_below clock c2 h1 lg1) as B2.
    rewrite Hrun in B2. cbn [snd] in B2. destruct B2 as ((m2 & S2) & _).
    assert (Hm : m1 ++ m2 = []).
    { apply (stack_same (_step lg)). rewrite app_assoc, <- S1, <- S2.
      exact Hbal. }
    apply app_eq_nil in Hm. destruct Hm as [-> ->].
    rewrite app_nil_r in S1, S2.
    destruct (IH1 _ _ _ _ _ E1 S1) as (n1 & L1 & W1).
    destruct (IH2 _ _ _ _ _ Hrun S2) as (n2 & L2 & W2).
    exists (n1 ++ n2). split; [rewrite L2, L1, app_assoc; reflexivity|].
    apply well_nested_app; [exact W1|]. rewrite <- S1. exact W2.
  - cbn [exec] in Hrun. inversion Hrun; subst. exists [].
    rewrite app_nil_r. split; [reflexivity | constructor].
  - cbn [exec] in Hrun.
    destruct (exec clock c1 h lg) as [[r1 h1] lg1] eqn:E1.
    pose proof (exec_below clock c1 h lg) as B1.
    rewrite E1 in B1. cbn [snd] in B1. destruct B1 as ((m1 & S1) & _).
    destruct r1 as [u|e|];
      try (inversion Hrun; subst; exact (IH1 _ _ _ _ _ E1 Hbal)).
    pose proof (exec_below clock c2 h1 lg1) as B2.
    rewrite Hrun in B2. cbn [snd] in B2. destruct B2 as ((m2 & S2) & _).
    assert (Hm : m1 ++ m2 = []).
    { apply (stack_same (_step lg)). rewrite app_assoc, <- S1, <- S2.
      exact Hbal. }
    apply app_eq_nil in Hm. destruct Hm as [-> ->].
    rewrite app_nil_r in S1, S2.
    destruct (IH1 _ _ _ _ _ E1 S1) as (n1 & L1 & W1).
    destruct (IH2 _ _ _ _ _ Hrun S2) as (n2 & L2 & W2).
    exists (n1 ++ n2). split; [rewrite L2, L1, app_assoc; reflexivity|].
    apply well_nested_app; [exact W1|]. rewrite <- S1. exact W2.
  - cbn [exec] in Hrun.
    destruct (step_enter_cases clock m a ex lg)
      as [(cp & k' & rb & _ & _ & He & _ & _ & Hbeg & _ & Hcb & _)
         | [(cp & k' & _ & _ & He) | (r0 & k' & He & Hnok & _)]];
      rewrite He in Hrun.
    + match type of Hrun with
      | context [exec clock body ?s ?x] => set (st := s) in *;
                                            set (lg1 := x) in *
      end.
      destruct (exec clock body st lg1) as [[r1 st'] lg2] eqn:Eb.
      pose proof (exec_below clock body st lg1) as Bb.
      rewrite Eb in Bb. cbn [snd] in Bb. destruct Bb as ((mb & Sb) & _).
      assert (Hs1 : _step lg1 = _step lg ++ [(_seq lg + 1, cp)])
        by reflexivity.
      assert (Hgrown : forall (lgx : t K),
                 _step lgx = _step lg2 -> _step lgx = _step lg -> False).
      { intros lgx Hx1 Hx2. rewrite Hx1, Sb, Hs1 in Hx2.
        apply (f_equal (@List.length _)) in Hx2.
        rewrite !length_app in Hx2. cbn in Hx2. lia. }
      assert (Hexit :
                forall thrown,
                  _step (snd (step_exit clock
                                {| checkpoint := cp;
                                   step_ixs :=
                                     map fst (_step lg) ++ [_seq lg + 1] |}
                                st' thrown lg2)) = _step lg ->
                  mb = []
                  /\ exists re,
                      logged (snd (step_exit clock
                                     {| checkpoint := cp;
                                        step_ixs :=
                                          map fst (_step lg)
                                          ++ [_seq lg + 1] |}
                                     st' thrown lg2))
                      = logged lg2 ++ [re]
                      /\ is_end re = true
                      /\ breadcrumb re
                         = map fst (_step lg) ++ [_seq lg + 1]).
      { intros thrown Hst.
        destruct (step_exit_cases clock
                    {| checkpoint := cp;
                       step_ixs := map fst (_step lg) ++ [_seq lg + 1] |}
                    st' thrown lg2)
          as [(now & k2 & re & _ & _ & Hx & _ & _ & Hend & _ & Hce & _)
             | [(now & k2 & _ & _ & Hx) | (r2 & k2 & Hx & _ & _)]];
          rewrite Hx in Hst |- *; cbn [snd _step logged] in Hst |- *;
          [| destruct (Hgrown (set_clock lg2 k2) eq_refl Hst)
           | destruct (Hgrown (set_clock lg2 k2) eq_refl Hst)].
        assert (Hmb : mb = []).
        { destruct mb as [|x mb'] using rev_ind; [reflexivity|].
          rewrite Sb, Hs1, app_assoc, removelast_last in Hst.
          apply (f_equal (@List.length _)) in Hst.
          rewrite !length_app in Hst. cbn in Hst. lia. }
        split; [exact Hmb|]. exists re.
        split; [reflexivity|]. split; [exact Hend | exact Hce]. }
      assert (Hclose :
                forall thrown r' lg3,
                  step_exit clock
                    {| checkpoint := cp;
                       step_ixs := map fst (_step lg) ++ [_seq lg + 1] |}
                    st' thrown lg2 = (r', lg3) ->
                  _step lg3 = _step lg ->
                  exists new,
                    logged lg3 = logged lg ++ new
                    /\ well_nested (map fst (_step lg)) new).
      { intros thrown r' lg3 Hx Hst.
        destruct (Hexit thrown) as (Hmb & re & Hl3 & Hend & Hce);
          [rewrite Hx; exact Hst|].
        rewrite Hx in Hl3. cbn [snd] in Hl3.
        rewrite Hmb, app_nil_r in Sb.
        destruct (IH _ _ _ _ _ Eb Sb) as (inner & Hl2 & Wi).
        exists (rb :: inner ++ [re]).
        split; [rewrite Hl3, Hl2; unfold lg1; cbn [logged];
                rewrite <- !app_assoc; reflexivity|].
        apply wn_step with (q := _seq lg + 1); auto.
        - rewrite Hs1, map_app in Wi. exact Wi.
        - constructor. }
      destruct r1 as [u|e|].
      * destruct (step_exit clock _ st' (thrown_of (Ok u)) lg2)
          as [r' lg3] eqn:Hx.
        inversion Hrun; subst. exact (Hclose _ _ _ Hx Hbal).
      * destruct (step_exit clock _ st' (thrown_of (Raise e)) lg2)
          as [r' lg3] eqn:Hx.
        inversion Hrun; subst. exact (Hclose _ _ _ Hx Hbal).
      * inversion Hrun; subst. destruct (Hgrown lg' eq_refl Hbal).
    + inversion Hrun; subst. cbn [_step] in Hbal.
      apply stack_same in Hbal. discriminate.
    + destruct r0 as [x|e|]; [destruct (Hnok x); reflexivity | |];
        inversion Hrun; subst; exists []; rewrite app_nil_r;
        (split; [reflexivity | constructor]).
  - cbn [exec] in Hrun. inversion Hrun; subst. exists [].
    rewrite app_nil_r. split; [reflexivity | constructor].
  - cbn [exec] in Hrun. inversion Hrun; subst. exists [].
    rewrite app_nil_r. split; [reflexivity | constructor].
  - cbn [exec] in Hrun.
    pose proof (elapsed_keeps clock then_ lg) as (Hl & _ & _).
    destruct (elapsed clock then_ lg) as [r1 lg1]. cbn [snd] in *.
    inversion Hrun; subst. exists []. rewrite app_nil_r.
    split; [exact Hl | constructor].
  - cbn [exec] in Hrun.
    pose proof (eta_keeps clock pct lg) as (Hl & _ & _).
    destruct (eta clock pct lg) as [r1 lg1]. cbn [snd] in *.
    inversion Hrun; subst. exists []. rewrite app_nil_r.
    split; [exact Hl | constructor].
Qed.

(** The two ways a scope can fail to close. *)
Lemma step_enter_refused (m : string) (a : dict) (ex : option dict)
    (lg : t K) (cp : datetime) (k1 : K) :
  clock (_clock lg) = (Ok cp, k1) ->
  refused (or_empty ex) = true ->
  step_enter clock m a ex lg
  = (Raise KeyError,
     {| name := name lg; event := event lg; _clock := k1;
        _seq := _seq lg + 1;
        _step := _step lg ++ [(_seq lg + 1, cp)];
        logged := logged lg |}).
Proof.
  intros Hc Href.
  destruct (step_enter_cases clock m a ex lg)
    as [(cp' & k' & rb & _ & Href' & _)
       | [(cp' & k' & Hc' & _ & He) | (r & k' & _ & _ & Hno)]].
  - congruence.
  - rewrite Hc in Hc'. assert (cp' = cp) by congruence.
    assert (k' = k1) by congruence. subst. exact He.
  - exfalso. apply (Hno cp). rewrite Hc. reflexivity.
Qed.

Lemma step_exit_clock_raises (fr : frame) (st : LogState)
    (thrown : option exn) (lg : t K) (e : exn) (k2 : K) :
  clock (_clock lg) = (Raise e, k2) ->
  step_exit clock fr st thrown lg = (Raise e, set_clock lg k2).
Proof.
  intros Hc. unfold step_exit, elapsed, call_clock. rewrite Hc.
  reflexivity.
Qed.

End NestingFacts.



(** X2.  If a program leaves the step stack as it found it, it has closed
    every scope it opened, and the step records it logged open and close
    like brackets: every begin record is answered, after the records of
    the steps nested in it, by a completion record with the same
    breadcrumb, and that breadcrumb is the enclosing one followed by one
    more number.  This holds for any clock and however the scopes were
    left. *)
Theorem log_well_nested (K : Type) (clock : K -> result datetime * K)
    (c : EventLogger.cmd) (h : EventLogger.LogState)
    (lg : EventLogger.t K) :
  EventLogger._step (snd (EventLogger.exec clock c h lg))
  = EventLogger._step lg ->
  exists new,
    EventLogger.logged (snd (EventLogger.exec clock c h lg))
    = EventLogger.logged lg ++ new
    /\ well_nested (map fst (EventLogger._step lg)) new.
Proof.
  intros Hbal.
  destruct (EventLogger.exec clock c h lg) as [[r h'] lg'] eqn:E.
  exact (exec_balanced clock c h lg r h' lg' E Hbal).
Qed.

(** Two steps in a row, the first with a step inside whose body raises an
    exception that is caught outside. *)
Lemma log_well_nested_witness :
  exists new,
    EventLogger.logged
      (snd (EventLogger.exec MockIO.clock
              (EventLogger.Seq
                 (EventLogger.TryExcept
                    (EventLogger.WithStep "outer" [] None
                       (EventLogger.WithStep "inner" [] None
                          (EventLogger.RaiseExn (AppError "boom"))))
                    EventLogger.Pass)
                 (EventLogger.WithStep "next" [] None EventLogger.Pass))
              (EventLogger.mkLogState [] [] []) Doctest.event0))
    = new
    /\ well_nested [] new
    /\ List.length new = 6%nat.
Proof.
  destruct (log_well_nested MockIO.t MockIO.clock
              (EventLogger.Seq
                 (EventLogger.TryExcept
                    (EventLogger.WithStep "outer" [] None
                       (EventLogger.WithStep "inner" [] None
                          (EventLogger.RaiseExn (AppError "boom"))))
                    EventLogger.Pass)
                 (EventLogger.WithStep "next" [] None EventLogger.Pass))
              (EventLogger.mkLogState [] [] []) Doctest.event0
              ltac:(vm_compute; reflexivity))
    as (new & Hl & Hw).
  exists new. split; [exact Hl|]. split; [exact Hw|].
  change (EventLogger.logged Doctest.event0 ++ new) with new in Hl.
  rewrite <- Hl. vm_compute. reflexivity.
Defined.

(** ** What the records of a scope hold *)





(** X4.  Whatever a program does and whatever the clock does, the logger's
    context stays the same and every record logged carries it under
    [context], also where the caller's [extra] has a [context] of its
    own. *)
Theorem records_carry_context (K : Type) (clock : K -> result datetime * K)
    (c : EventLogger.cmd) (h : EventLogger.LogState)
    (lg : EventLogger.t K) :
  EventLogger.event (snd (EventLogger.exec clock c h lg))
  = EventLogger.event lg
  /\ exists new,
      EventLogger.logged (snd (EventLogger.exec clock c h lg))
      = EventLogger.logged lg ++ new
      /\ Forall (fun r => context_of r = Some (VDict (EventLogger.event lg)))
           new.
Proof. exact (exec_keeps_context clock c h lg). Qed.



(** ** Sequence numbers leave no gaps *)

Lemma map_seq_shift (base : Z) (k len : nat) :
  forall s,
    map (fun i => base + Z.of_nat i) (seq (s + k) len)
    = map (fun i => base + Z.of_nat k + Z.of_nat i) (seq s len).
Proof.
  induction len as [|len IH]; intros s; [reflexivity|].
  cbn [seq map]. f_equal; [lia|].
  exact (IH (S s)).
Qed.

Section NumberingFacts.

Context {K : Type}.
Variable clock : K -> result datetime * K.

Import EventLogger.

Lemma numbered_refl (lg : t K) : numbered lg lg.
Proof.
  exists [], 0%nat. rewrite app_nil_r. cbn. repeat split. lia.
Qed.

Lemma numbered_trans (lg1 lg2 lg3 : t K) :
  numbered lg1 lg2 -> numbered lg2 lg3 -> numbered lg1 lg3.
Proof.
  intros (new1 & n1 & L1 & A1 & S1) (new2 & n2 & L2 & A2 & S2).
  exists (new1 ++ new2), (n1 + n2)%nat.
  split; [rewrite L2, L1, app_assoc; reflexivity|].
  split; [|lia].
  rewrite assigned_app, A1, A2, seq_app, map_app. f_equal.
  rewrite S1. symmetry. exact (map_seq_shift (_seq lg1) n1 n2 1).
Qed.

(** A state that differs in the clock only. *)
Lemma numbered_same (lg lg' : t K) :
  logged lg' = logged lg -> _seq lg' = _seq lg -> numbered lg lg'.
Proof.
  intros Hl Hs. exists [], 0%nat. rewrite app_nil_r. cbn.
  repeat split; [exact Hl | lia].
Qed.

Lemma step_enter_numbered (m : string) (a : dict) (ex : option dict)
    (lg : t K) :
  refused (or_empty ex) = false ->
  numbered lg (snd (step_enter clock m a ex lg)).
Proof.
  intros Href.
  destruct (step_enter_cases clock m a ex lg)
    as [(cp & k' & rb & _ & _ & He & _ & _ & Hb & _ & Hc & _)
       | [(cp & k' & _ & Href' & _) | (r & k' & He & _ & _)]];
    [| congruence |]; rewrite He; cbn [snd].
  - exists [rb], 1%nat. cbn [logged _seq assigned seq map].
    rewrite Hb, Hc, last_last. repeat split.
  - apply numbered_same; reflexivity.
Qed.

Lemma step_exit_numbered (fr : frame) (st : LogState)
    (thrown : option exn) (lg : t K) :
  numbered lg (snd (step_exit clock fr st thrown lg)).
Proof.
  destruct (step_exit_cases clock fr st thrown lg)
    as [(now & k' & re & _ & _ & He & _ & _ & _ & Hb & _)
       | [(now & k' & _ & _ & He) | (r & k' & He & _ & _)]];
    rewrite He; cbn [snd].
  - exists [re], 0%nat. cbn [logged _seq assigned seq map]. rewrite Hb.
    repeat split. lia.
  - apply numbered_same; reflexivity.
  - apply numbered_same; reflexivity.
Qed.

Lemma exec_numbered (c : cmd) :
  plain c = true ->
  forall (h : LogState) (lg : t K), numbered lg (snd (exec clock c h lg)).
Proof.
  induction c as [ | c1 IH1 c2 IH2 | e | c1 IH1 c2 IH2 | m a ex body IH
                 | s | k v | then_ | pct ];
    intros Hplain h lg; cbn [exec]; cbn [plain] in Hplain.
  - apply numbered_refl.
  - apply andb_prop in Hplain. destruct Hplain as [P1 P2].
    specialize (IH1 P1 h lg).
    destruct (exec clock c1 h lg) as [[r1 h1] lg1]. cbn [snd] in IH1.
    destruct r1; cbn [snd]; try exact IH1.
    eapply numbered_trans; [exact IH1 | apply IH2; exact P2].
  - apply numbered_refl.
  - apply andb_prop in Hplain. destruct Hplain as [P1 P2].
    specialize (IH1 P1 h lg).
    destruct (exec clock c1 h lg) as [[r1 h1] lg1]. cbn [snd] in IH1.
    destruct r1; cbn [snd]; try exact IH1.
    eapply numbered_trans; [exact IH1 | apply IH2; exact P2].
  - apply andb_prop in Hplain. destruct Hplain as [P1 P2].
    apply negb_true_iff in P1.
    pose proof (step_enter_numbered m a ex lg P1) as He.
    destruct (step_enter clock m a ex lg) as [[[fr st]|e|] lg1];
      cbn [snd] in He |- *; try exact He.
    specialize (IH P2 st lg1).
    destruct (exec clock body st lg1) as [[r st'] lg2]. cbn [snd] in IH.
    pose proof (numbered_trans _ _ _ He IH) as H2.
    destruct r as [u|e|]; cbn [snd]; try exact H2.
    + pose proof (step_exit_numbered fr st' (thrown_of (Ok u)) lg2) as Hx.
      destruct (step_exit clock fr st' (thrown_of (Ok u)) lg2) as [r' lg3].
      cbn [snd] in Hx |- *. eapply numbered_trans; eassumption.
    + pose proof (step_exit_numbered fr st' (thrown_of (Raise e)) lg2)
        as Hx.
      destruct (step_exit clock fr st' (thrown_of (Raise e)) lg2)
        as [r' lg3].
      cbn [snd] in Hx |- *. eapply numbered_trans; eassumption.
  - apply numbered_refl.
  - apply numbered_refl.
  - pose proof (elapsed_keeps clock then_ lg) as (Hl & Hs & _).
    destruct (elapsed clock then_ lg) as [r lg1]. cbn [snd] in *.
    apply numbered_same; assumption.
  - pose proof (eta_keeps clock pct lg) as (Hl & Hs & _).
    destruct (eta clock pct lg) as [r lg1]. cbn [snd] in *.
    apply numbered_same; assumption.
Qed.

End NumberingFacts.

(** X5.  Every step that is entered takes the next number: the counter
    goes up by one, the new frame and the begin record carry the new
    value.  So, for a program none of whose steps passes a reserved key in
    [extra], run on a logger from its construction on with any clock, the
    begin records are numbered 1, 2, 3, ... in the order the steps were
    entered, without a gap, and the counter is the number of steps
    entered.  A step whose clock reading fails takes no number. *)
Theorem sequence_numbers_consecutive (K : Type)
    (clock : K -> result datetime * K) :
  (forall m a ex lg fr st lg1,
      EventLogger.step_enter clock m a ex lg = (Ok (fr, st), lg1) ->
      EventLogger._seq lg1 = EventLogger._seq lg + 1
      /\ last (EventLogger.step_ixs fr) 0 = EventLogger._seq lg + 1
      /\ map fst (EventLogger._step lg1)
         = map fst (EventLogger._step lg) ++ [EventLogger._seq lg + 1]
      /\ assigned (EventLogger.logged lg1)
         = assigned (EventLogger.logged lg) ++ [EventLogger._seq lg + 1])
  /\ (forall m a ex lg r lg1,
         EventLogger.step_enter clock m a ex lg = (r, lg1) ->
         (forall now, fst (clock (EventLogger._clock lg)) <> Ok now) ->
         EventLogger._seq lg1 = EventLogger._seq lg
         /\ EventLogger._step lg1 = EventLogger._step lg
         /\ EventLogger.logged lg1 = EventLogger.logged lg)
  /\ (forall logger_name ev k c h,
         plain c = true ->
         exists n,
           assigned
             (EventLogger.logged
                (snd (EventLogger.exec clock c h
                        (EventLogger.__init__ logger_name ev k))))
           = map Z.of_nat (seq 1 n)
           /\ EventLogger._seq
                (snd (EventLogger.exec clock c h
                        (EventLogger.__init__ logger_name ev k)))
              = Z.of_nat n).
Proof.
  split; [|split].
  - intros m a ex lg fr st lg1 He.
    destruct (step_enter_cases clock m a ex lg)
      as [(cp & k' & rb & _ & _ & He1 & _ & _ & Hb & _ & Hc & _)
         | [(cp & k' & _ & _ & He1) | (r0 & k0 & He1 & Hno & _)]];
      rewrite He in He1;
      [| discriminate | exfalso; apply (Hno (fr, st)); congruence].
    assert (Hfr : fr = {| EventLogger.checkpoint := cp;
                          EventLogger.step_ixs :=
                            map fst (EventLogger._step lg)
                            ++ [EventLogger._seq lg + 1] |}) by congruence.
    assert (Hlg1 : lg1 = {| EventLogger.name := EventLogger.name lg;
                            EventLogger.event := EventLogger.event lg;
                            EventLogger._clock := k';
                            EventLogger._seq := EventLogger._seq lg + 1;
                            EventLogger._step :=
                              EventLogger._step lg
                              ++ [(EventLogger._seq lg + 1, cp)];
                            EventLogger.logged :=
                              EventLogger.logged lg ++ [rb] |})
      by congruence.
    rewrite Hfr, Hlg1.
    cbn [EventLogger._seq EventLogger.step_ixs EventLogger._step
         EventLogger.logged].
    split; [reflexivity|]. split; [apply last_last|].
    split; [rewrite map_app; reflexivity|].
    rewrite assigned_app. cbn [assigned]. rewrite Hb, Hc, last_last.
    reflexivity.
  - intros m a ex lg r lg1 He Hno.
    destruct (step_enter_cases clock m a ex lg)
      as [(cp & k' & rb & Hc & _)
         | [(cp & k' & Hc & _) | (r0 & k0 & He1 & _ & _)]];
      try (exfalso; apply (Hno cp); rewrite Hc; reflexivity).
    rewrite He in He1.
    assert (Hlg1 : lg1 = EventLogger.set_clock lg k0) by congruence.
    rewrite Hlg1. repeat split.
  - intros logger_name ev k c h Hplain.
    destruct (exec_numbered clock c Hplain h
                (EventLogger.__init__ logger_name ev k))
      as (new & n & Hl & Ha & Hs).
    cbn [EventLogger.logged EventLogger._seq EventLogger.__init__ app]
      in Hl, Ha, Hs.
    exists n. rewrite Hl, Ha, Hs. split; reflexivity.
Qed.

(** The doctest's three steps on the test clock. *)
Lemma sequence_numbers_consecutive_witness :
  assigned
    (EventLogger.logged
       (snd (EventLogger.exec MockIO.clock
               (EventLogger.WithStep "Build %(product)s"
                  [("product"%string, VStr "house")] None
                  (EventLogger.Seq Doctest.lay_foundation
                     Doctest.frame_house))
               (EventLogger.mkLogState [] [] [])
               (EventLogger.__init__ "log1" []
                  (MockIO.__init__ MockIO.default_now)))))
  = [1; 2; 3]
  /\ EventLogger._seq
       (snd (EventLogger.step_enter MockIO.clock "load" [] None
               (EventLogger.__init__ "log1" []
                  (MockIO.__init__ MockIO.default_now))))
     = 1.
Proof.
  split.
  - destruct (proj2 (proj2 (sequence_numbers_consecutive MockIO.t
                              MockIO.clock))
                "log1"%string [] (MockIO.__init__ MockIO.default_now)
                (EventLogger.WithStep "Build %(product)s"
                   [("product"%string, VStr "house")] None
                   (EventLogger.Seq Doctest.lay_foundation
                      Doctest.frame_house))
                (EventLogger.mkLogState [] [] []) eq_refl)
      as (n & Ha & Hs).
    rewrite Ha.
    assert (Hn : n = 3%nat).
    { apply Nat2Z.inj. rewrite <- Hs. vm_compute. reflexivity. }
    rewrite Hn. reflexivity.
  - exact (proj1 (proj1 (sequence_numbers_consecutive MockIO.t MockIO.clock)
                    "load"%string [] None
                    (EventLogger.__init__ "log1" []
                       (MockIO.__init__ MockIO.default_now))
                    _ _ _ eq_refl)).
Defined.

(** X14.  The two ways a scope is left open.  When the caller's [extra]
    holds a key the logging library reserves, [step] raises [KeyError] on
    the way in: the counter has gone up and the frame has been pushed, but
    nothing is logged, the body does not run and the frame stays on the
    stack.  When the clock raises as the scope is left, that exception
    takes the place of the body's outcome, no completion record is logged
    and the frame stays on the stack. *)
Theorem scope_left_open (K : Type) (clock : K -> result datetime * K)
    (m : string) (a : dict) (ex : option dict) (body : EventLogger.cmd)
    (h : EventLogger.LogState) (lg : EventLogger.t K) :
  (forall cp k1,
      clock (EventLogger._clock lg) = (Ok cp, k1) ->
      refused (or_empty ex) = true ->
      EventLogger.exec clock (EventLogger.WithStep m a ex body) h lg
      = (Raise KeyError, h,
         {| EventLogger.name := EventLogger.name lg;
            EventLogger.event := EventLogger.event lg;
            EventLogger._clock := k1;
            EventLogger._seq := EventLogger._seq lg + 1;
            EventLogger._step :=
              EventLogger._step lg ++ [(EventLogger._seq lg + 1, cp)];
            EventLogger.logged := EventLogger.logged lg |}))
  /\ (forall fr st lg1 r st' lg2 e k2,
         EventLogger.step_enter clock m a ex lg = (Ok (fr, st), lg1) ->
         EventLogger.exec clock body st lg1 = (r, st', lg2) ->
         r <> Blocks ->
         clock (EventLogger._clock lg2) = (Raise e, k2) ->
         EventLogger.exec clock (EventLogger.WithStep m a ex body) h lg
         = (Raise e, h, EventLogger.set_clock lg2 k2)
         /\ EventLogger.logged (EventLogger.set_clock lg2 k2)
            = EventLogger.logged lg2
         /\ exists more,
             EventLogger._step (EventLogger.set_clock lg2 k2)
             = EventLogger._step lg
               ++ (EventLogger._seq lg + 1, EventLogger.checkpoint fr)
                  :: more).
Proof.
  split.
  - intros cp k1 Hc Href. cbn [EventLogger.exec].
    rewrite (step_enter_refused clock m a ex lg cp k1 Hc Href).
    reflexivity.
  - intros fr st lg1 r st' lg2 e k2 He Eb Hr Hc2.
    split; [|split; [reflexivity|]].
    + cbn [EventLogger.exec]. rewrite He, Eb.
      destruct r as [u|e0|]; [| |destruct Hr; reflexivity];
        cbv iota;
        rewrite (step_exit_clock_raises clock fr st' _ lg2 e k2 Hc2);
        reflexivity.
    + pose proof (exec_below clock body st lg1) as Hb.
      rewrite Eb in Hb. cbn [snd] in Hb. destruct Hb as ((mb & Hs) & _).
      destruct (step_enter_cases clock m a ex lg)
        as [(cp & k' & rb & _ & _ & He1 & _)
           | [(cp & k' & _ & _ & He1) | (r0 & k0 & He1 & Hno & _)]];
        rewrite He in He1;
        [| discriminate | exfalso; apply (Hno (fr, st)); congruence].
      assert (Hfr : fr = {| EventLogger.checkpoint := cp;
                            EventLogger.step_ixs :=
                              map fst (EventLogger._step lg)
                              ++ [EventLogger._seq lg + 1] |})
        by congruence.
      assert (Hlg1 : lg1 = {| EventLogger.name := EventLogger.name lg;
                              EventLogger.event := EventLogger.event lg;
                              EventLogger._clock := k';
                              EventLogger._seq := EventLogger._seq lg + 1;
                              EventLogger._step :=
                                EventLogger._step lg
                                ++ [(EventLogger._seq lg + 1, cp)];
                              EventLogger.logged :=
                                EventLogger.logged lg ++ [rb] |})
        by congruence.
      exists mb. cbn [EventLogger._step EventLogger.set_clock].
      rewrite Hs, Hlg1, Hfr. cbn [EventLogger._step EventLogger.checkpoint].
      rewrite <- app_assoc. reflexivity.
Qed.

(** A reserved key in [extra], and a clock that answers once. *)
Lemma scope_left_open_witness :
  fst (fst (EventLogger.exec (stopped_clock MockIO.default_now)
              (EventLogger.WithStep "load" []
                 (Some [("message"%string, VStr "again")])
                 EventLogger.Pass)
              (EventLogger.mkLogState [] [] [])
              (EventLogger.__init__ "log1" [] tt)))
  = Raise KeyError
  /\ fst (fst (EventLogger.exec (one_shot_clock MockIO.default_now)
                 (EventLogger.WithStep "load" [] None
                    (EventLogger.RaiseExn (AppError "boom")))
                 (EventLogger.mkLogState [] [] [])
                 (EventLogger.__init__ "log1" [] 0%nat)))
     = Raise OverflowError.
Proof.
  split.
  - rewrite (proj1 (scope_left_open unit (stopped_clock MockIO.default_now)
                      "load" [] (Some [("message"%string, VStr "again")])
                      EventLogger.Pass (EventLogger.mkLogState [] [] [])
                      (EventLogger.__init__ "log1" [] tt))
               MockIO.default_now tt eq_refl eq_refl).
    reflexivity.
  - rewrite (proj1 (proj2 (scope_left_open nat
                             (one_shot_clock MockIO.default_now)
                             "load" [] None
                             (EventLogger.RaiseExn (AppError "boom"))
                             (EventLogger.mkLogState [] [] [])
                             (EventLogger.__init__ "log1" [] 0%nat))
                      _ _ _ (Raise (AppError "boom")) _ _ OverflowError
                      2%nat eq_refl eq_refl ltac:(discriminate) eq_refl)).
    reflexivity.
Defined.

(** ** MockIO *)

Lemma triangle_closed (n : nat) :
  2 * triangle n = Z.of_nat n * (Z.of_nat n + 1).
Proof. induction n as [|n IH]; [reflexivity|]. cbn [triangle]. lia. Qed.

Lemma triangle_nonneg (n : nat) : 0 <= triangle n.
Proof. induction n as [|n IH]; cbn [triangle]; lia. Qed.

(** One call of the test clock, by the range its sum falls in. *)
Lemma mock_clock_call (now delta : Z) :
  us_per_day <= now -> 0 <= delta ->
  MockIO.clock {| MockIO._now := now; MockIO._delta := delta |}
  = if now + delta * us_per_second <? end_of_time
    then (Ok (now + delta * us_per_second),
          {| MockIO._now := now + delta * us_per_second;
             MockIO._delta := delta + 1 |})
    else (Raise OverflowError,
          {| MockIO._now := now; MockIO._delta := delta |}).
Proof.
  intros Hnow Hdelta.
  unfold MockIO.clock, td_seconds, dt_add, mk_timedelta, in_range,
    end_of_time.
  cbn [MockIO._now MockIO._delta].
  unfold _MAXDAYS, _MAXORDINAL, us_per_day, us_per_second in *.
  destruct (now + delta * 1000000 <? (3652059 + 1) * (86400 * 1000000))
    eqn:Ein.
  - apply Z.ltb_lt in Ein.
    replace ((- (999999999) <=? delta * 1000000 / (86400 * 1000000))
             && (delta * 1000000 / (86400 * 1000000) <=? 999999999))
      with true
      by (symmetry; apply andb_true_intro; split; apply Z.leb_le;
          [apply Z.div_le_lower_bound | apply Z.div_le_upper_bound]; lia).
    cbn [bind].
    replace ((- (999999999)
              <=? (now + delta * 1000000) / (86400 * 1000000))
             && ((now + delta * 1000000) / (86400 * 1000000)
                 <=? 999999999))
      with true
      by (symmetry; apply andb_true_intro; split; apply Z.leb_le;
          [apply Z.div_le_lower_bound | apply Z.div_le_upper_bound]; lia).
    cbn [bind].
    replace ((1 <=? (now + delta * 1000000) / (86400 * 1000000))
             && ((now + delta * 1000000) / (86400 * 1000000) <=? 3652059))
      with true
      by (symmetry; apply andb_true_intro; split; apply Z.leb_le;
          [apply Z.div_le_lower_bound; lia
          | apply Z.lt_succ_r; apply Z.div_lt_upper_bound; lia]).
    reflexivity.
  - apply Z.ltb_ge in Ein.
    destruct ((- (999999999) <=? delta * 1000000 / (86400 * 1000000))
              && (delta * 1000000 / (86400 * 1000000) <=? 999999999));
      cbn [bind]; [|reflexivity].
    destruct ((- (999999999)
               <=? (now + delta * 1000000) / (86400 * 1000000))
              && ((now + delta * 1000000) / (86400 * 1000000)
                  <=? 999999999));
      cbn [bind]; [|reflexivity].
    replace ((1 <=? (now + delta * 1000000) / (86400 * 1000000))
             && ((now + delta * 1000000) / (86400 * 1000000) <=? 3652059))
      with false; [reflexivity|].
    symmetry. apply andb_false_iff. right. apply Z.leb_gt.
    apply Z.lt_le_trans with (m := 3652059 + 1); [lia|].
    apply Z.div_le_lower_bound; lia.
Qed.

Lemma clock_calls_S (n : nat) (io : MockIO.t) :
  clock_calls (S n) io
  = match MockIO.clock io with
    | (Ok d, io1) =>
        let '(r, io2) := clock_calls n io1 in
        (let* ds := r in Ok (d :: ds), io2)
    | (Raise e, io1) => (Raise e, io1)
    | (Blocks, io1) => (Blocks, io1)
    end.
Proof. reflexivity. Qed.

(** One more call at the end of a run of calls. *)
Lemma clock_calls_snoc (n : nat) :
  forall io,
    clock_calls (S n) io
    = match clock_calls n io with
      | (Ok ds, io1) =>
          match MockIO.clock io1 with
          | (Ok d, io2) => (Ok (ds ++ [d]), io2)
          | (Raise e, io2) => (Raise e, io2)
          | (Blocks, io2) => (Blocks, io2)
          end
      | other => other
      end.
Proof.
  induction n as [|n IH]; intros io.
  - cbn [clock_calls]. destruct (MockIO.clock io) as [[d|e|] io1];
      reflexivity.
  - rewrite (clock_calls_S (S n) io), (clock_calls_S n io).
    destruct (MockIO.clock io) as [[d|e|] io1]; try reflexivity.
    rewrite IH.
    destruct (clock_calls n io1) as [[ds| |] io2]; cbn [bind];
      try reflexivity.
    destruct (MockIO.clock io2) as [[d'|e'|] io3]; reflexivity.
Qed.

Lemma seq_snoc (s n : nat) : seq s (S n) = seq s n ++ [(s + n)%nat].
Proof.
  replace (S n) with (n + 1)%nat by lia. rewrite seq_app. reflexivity.
Qed.

Lemma mock_clock_run (now : datetime) (n : nat) :
  us_per_day <= now ->
  now + triangle n * us_per_second < end_of_time ->
  clock_calls n (MockIO.__init__ now)
  = (Ok (map (fun i => now + triangle i * us_per_second) (seq 1 n)),
     {| MockIO._now := now + triangle n * us_per_second;
        MockIO._delta := Z.of_nat n + 1 |}).
Proof.
  intros Hnow. induction n as [|n IH]; intros Hend.
  - cbn. rewrite Z.add_0_r. reflexivity.
  - pose proof (triangle_nonneg n) as Hn.
    assert (Hus : 0 < us_per_second) by reflexivity.
    cbn [triangle] in Hend.
    rewrite clock_calls_snoc, IH by nia.
    rewrite mock_clock_call by nia.
    replace (now + triangle n * us_per_second
             + (Z.of_nat n + 1) * us_per_second <? end_of_time) with true
      by (symmetry; apply Z.ltb_lt; nia).
    rewrite seq_snoc, map_app. cbn [map triangle Nat.add].
    replace (now + triangle n * us_per_second
             + (Z.of_nat n + 1) * us_per_second)
      with (now + (triangle n + Z.of_nat (S n)) * us_per_second) by lia.
    replace (Z.of_nat n + 1 + 1) with (Z.of_nat (S n) + 1) by lia.
    reflexivity.
Qed.

(** X7.  A test clock started at a valid [now] gives [now] plus 1, 3, 6,
    10, ... seconds: its [i]-th reading is [now] plus [i (i + 1) / 2]
    seconds, as long as that stays within [datetime.max]'s day, and after
    [n] calls the next step is [n + 1] seconds.  The first call whose sum
    would pass that day raises [OverflowError] and leaves the clock as it
    was. *)
Theorem mock_clock_readings (now : datetime) (n : nat) :
  us_per_day <= now ->
  now + triangle n * us_per_second < end_of_time ->
  clock_calls n (MockIO.__init__ now)
  = (Ok (map (fun i => now + triangle i * us_per_second) (seq 1 n)),
     {| MockIO._now := now + triangle n * us_per_second;
        MockIO._delta := Z.of_nat n + 1 |})
  /\ 2 * triangle n = Z.of_nat n * (Z.of_nat n + 1)
  /\ (end_of_time <= now + triangle (S n) * us_per_second ->
      clock_calls (S n) (MockIO.__init__ now)
      = (Raise OverflowError,
         {| MockIO._now := now + triangle n * us_per_second;
            MockIO._delta := Z.of_nat n + 1 |})).
Proof.
  intros Hnow Hend.
  split; [exact (mock_clock_run now n Hnow Hend)|].
  split; [apply triangle_closed|].
  intros Hover. cbn [triangle] in Hover.
  pose proof (triangle_nonneg n) as Hn.
  assert (Hus : 0 < us_per_second) by reflexivity.
  rewrite clock_calls_snoc, (mock_clock_run now n Hnow Hend).
  rewrite mock_clock_call by nia.
  replace (now + triangle n * us_per_second
           + (Z.of_nat n + 1) * us_per_second <? end_of_time) with false
    by (symmetry; apply Z.ltb_ge; lia).
  reflexivity.
Qed.

(** The seven readings of the doctest. *)
Lemma mock_clock_readings_witness :
  fst (clock_calls 7 (MockIO.__init__ MockIO.default_now))
  = Ok (map (ymd_hms 2000 1 1 12 30) [1; 3; 6; 10; 15; 21; 28]).
Proof.
  rewrite (proj1 (mock_clock_readings MockIO.default_now 7
                    ltac:(vm_compute; discriminate)
                    ltac:(vm_compute; reflexivity))).
  vm_compute. reflexivity.
Defined.

(** ** What the debounce handler passes on *)

Lemma subseq_refl {A : Type} (l : list A) : subseq l l.
Proof.
  induction l as [|x l IH]; [apply subseq_nil | apply subseq_take; exact IH].
Qed.

Lemma subseq_empty {A : Type} (l : list A) : subseq [] l.
Proof.
  induction l as [|x l IH]; [apply subseq_nil | apply subseq_skip; exact IH].
Qed.

Lemma subseq_app {A : Type} (a b c d : list A) :
  subseq a b -> subseq c d -> subseq (a ++ c) (b ++ d).
Proof.
  intros Hab Hcd. induction Hab as [|x a b _ IH|x a b _ IH]; cbn [app];
    [exact Hcd | apply subseq_skip; exact IH | apply subseq_take; exact IH].
Qed.

Lemma subseq_trans {A : Type} (a b c : list A) :
  subseq a b -> subseq b c -> subseq a c.
Proof.
  intros Hab Hbc. revert a Hab.
  induction Hbc as [|x b c _ IH|x b c _ IH]; intros a Hab.
  - exact Hab.
  - apply subseq_skip. exact (IH a Hab).
  - inversion Hab as [|y a' b' Ha|y a' b' Ha]; subst.
    + apply subseq_skip. exact (IH a Ha).
    + apply subseq_take. exact (IH a' Ha).
Qed.

Lemma emitted_cons (o : DebounceHandler.op) (ops : list DebounceHandler.op) :
  emitted (o :: ops) = emitted [o] ++ emitted ops.
Proof. destruct o; reflexivity. Qed.

Module DebounceOrder.

Import DebounceHandler DebounceFacts DebounceRuns.

Lemma kept_subseq (h : t) : subseq (kept h) (Queue.items (buffer h)).
Proof.
  unfold kept. destruct (Queue.full (buffer h)); [|apply subseq_refl].
  destruct (Queue.items (buffer h)) as [|x rest]; cbn [tl];
    [apply subseq_nil | apply subseq_skip; apply subseq_refl].
Qed.

(** A queue built with [maxsize <= 0] is never full. *)
Lemma kept_unbounded (h : t) :
  Queue.maxsize (buffer h) <= 0 -> kept h = Queue.items (buffer h).
Proof.
  intros Hm. unfold kept, Queue.full.
  replace (0 <? Queue.maxsize (buffer h)) with false
    by (symmetry; apply Z.ltb_ge; exact Hm).
  reflexivity.
Qed.

(** What one call forwards and what it leaves in the buffer: together
    they are what was in the buffer, less the record [emit] may have
    dropped, followed by the record emitted. *)
Lemma apply_op_passes (o : op) (h : t) :
  bounded h ->
  exists h' fwd left_,
    apply_op o h = Ok h'
    /\ bounded h'
    /\ Queue.maxsize (buffer h') = Queue.maxsize (buffer h)
    /\ handled h' = handled h ++ fwd
    /\ (left_ = Queue.items (buffer h) \/ left_ = kept h)
    /\ fwd ++ Queue.items (buffer h') = left_ ++ emitted [o].
Proof.
  intros Hb. destruct o as [record| | | |id]; cbn [apply_op emitted].
  - rewrite (emit_bounded record h Hb).
    destruct (flushLevel h <=? levelno record).
    + eexists _, (kept h ++ [record]), (kept h). split; [reflexivity|].
      split; [unfold bounded, Queue.qsize; cbn; lia|].
      split; [reflexivity|]. split; [reflexivity|].
      split; [right; reflexivity|].
      cbn [buffer Queue.items]. rewrite app_nil_r. reflexivity.
    + eexists _, [], (kept h). split; [reflexivity|].
      split; [unfold bounded, Queue.qsize;
              cbn [buffer Queue.maxsize Queue.items];
              intros Hpos; apply kept_room; assumption|].
      split; [reflexivity|].
      split; [cbn [handled]; rewrite app_nil_r; reflexivity|].
      split; [right; reflexivity | reflexivity].
  - rewrite flush_drains.
    exists (drained h), (Queue.items (buffer h)), (Queue.items (buffer h)).
    split; [reflexivity|]. split; [apply drained_bounded|].
    split; [reflexivity|]. split; [reflexivity|].
    split; [left; reflexivity | reflexivity].
  - exists (start h), [], (Queue.items (buffer h)).
    split; [reflexivity|]. split; [exact Hb|].
    split; [reflexivity|].
    split; [cbn; rewrite app_nil_r; reflexivity|].
    split; [left; reflexivity|].
    cbn. rewrite app_nil_r. reflexivity.
  - rewrite stop_drains.
    eexists _, (Queue.items (buffer h)), (Queue.items (buffer h)).
    split; [reflexivity|].
    split; [unfold bounded, Queue.qsize; cbn; lia|].
    split; [reflexivity|]. split; [reflexivity|].
    split; [left; reflexivity | reflexivity].
  - destruct (fire_cases id h) as [(i & Hnth & Hf)|Hf]; rewrite Hf.
    + eexists _, (Queue.items (buffer h)), (Queue.items (buffer h)).
      split; [reflexivity|].
      split; [apply drained_bounded|].
      split; [reflexivity|]. split; [reflexivity|].
      split; [left; reflexivity | reflexivity].
    + exists h, [], (Queue.items (buffer h)).
      split; [reflexivity|]. split; [exact Hb|].
      split; [reflexivity|]. split; [rewrite app_nil_r; reflexivity|].
      split; [left; reflexivity|].
      cbn. rewrite app_nil_r. reflexivity.
Qed.

(** Over a run of calls: what was forwarded, followed by what is still
    buffered, is what was buffered and emitted, in that order, with some
    records left out. *)
Lemma run_passes (ops : list op) :
  forall h,
    bounded h ->
    exists h' fwd,
      run ops h = Ok h'
      /\ Queue.maxsize (buffer h') = Queue.maxsize (buffer h)
      /\ handled h' = handled h ++ fwd
      /\ subseq (fwd ++ Queue.items (buffer h'))
           (Queue.items (buffer h) ++ emitted ops)
      /\ (Queue.maxsize (buffer h) <= 0 ->
          fwd ++ Queue.items (buffer h')
          = Queue.items (buffer h) ++ emitted ops).
Proof.
  induction ops as [|o ops IH]; intros h Hb.
  - exists h, []. cbn [run emitted app]. rewrite !app_nil_r.
    split; [reflexivity|]. split; [reflexivity|]. split; [reflexivity|].
    split; [apply subseq_refl | reflexivity].
  - destruct (apply_op_passes o h Hb)
      as (h1 & f1 & left_ & H1 & Hb1 & Hm1 & Hh1 & Hleft & Hp1).
    destruct (IH h1 Hb1) as (h' & f2 & H' & Hm' & Hh' & Hs' & Hall').
    exists h', (f1 ++ f2). cbn [run]. rewrite H1. cbn [bind].
    split; [exact H'|]. split; [congruence|].
    split; [rewrite Hh', Hh1, app_assoc; reflexivity|].
    rewrite emitted_cons, <- app_assoc.
    split.
    + apply subseq_trans
        with (b := f1 ++ Queue.items (buffer h1) ++ emitted ops).
      * apply subseq_app; [apply subseq_refl | exact Hs'].
      * rewrite !app_assoc. apply subseq_app; [|apply subseq_refl].
        rewrite Hp1. apply subseq_app; [|apply subseq_refl].
        destruct Hleft as [-> | ->]; [apply subseq_refl | apply kept_subseq].
    + intros Hm. rewrite Hall' by lia.
      rewrite !app_assoc. f_equal. rewrite Hp1. f_equal.
      destruct Hleft as [-> | ->];
        [reflexivity | apply kept_unbounded; exact Hm].
Qed.

(** *** Bursts *)

Lemma newest_bounded (h : t) :
  bounded h ->
  newest (Queue.maxsize (buffer h)) (Queue.items (buffer h))
  = Queue.items (buffer h).
Proof.
  intros Hb. unfold newest.
  destruct (0 <? Queue.maxsize (buffer h)) eqn:Epos; [|reflexivity].
  apply Z.ltb_lt in Epos. specialize (Hb Epos). unfold Queue.qsize in Hb.
  replace (List.length (Queue.items (buffer h))
           - Z.to_nat (Queue.maxsize (buffer h)))%nat with 0%nat by lia.
  reflexivity.
Qed.

(** Dropping the oldest record of a full buffer first does not change
    which records are the newest once one more has come in. *)
Lemma newest_kept (h : t) (record : LogRecord) (rs : list LogRecord) :
  bounded h ->
  newest (Queue.maxsize (buffer h)) (kept h ++ record :: rs)
  = newest (Queue.maxsize (buffer h))
      (Queue.items (buffer h) ++ record :: rs).
Proof.
  intros Hb. unfold kept, Queue.full, newest.
  destruct (0 <? Queue.maxsize (buffer h)) eqn:Epos; [|reflexivity].
  cbn [andb].
  destruct (Queue.maxsize (buffer h) <=? Queue.qsize (buffer h)) eqn:Efull;
    [|reflexivity].
  apply Z.ltb_lt in Epos. apply Z.leb_le in Efull.
  specialize (Hb Epos). unfold Queue.qsize in *.
  destruct (Queue.items (buffer h)) as [|x rest]; [reflexivity|].
  cbn [tl app List.length] in *.
  replace (S (List.length (rest ++ record :: rs))
           - Z.to_nat (Queue.maxsize (buffer h)))%nat
    with (S (List.length (rest ++ record :: rs)
             - Z.to_nat (Queue.maxsize (buffer h))))%nat
    by (rewrite length_app; cbn [List.length]; lia).
  reflexivity.
Qed.

(** A run of [emit]s below the flush level. *)
Lemma burst_run (rs : list LogRecord) :
  forall h,
    bounded h ->
    Forall (fun r => levelno r < flushLevel h) rs ->
    exists h',
      run (map Emit rs) h = Ok h'
      /\ handled h' = handled h
      /\ interval h' = interval h
      /\ Queue.items (buffer h')
         = newest (Queue.maxsize (buffer h)) (Queue.items (buffer h) ++ rs)
      /\ (rs <> [] ->
          exists id,
            _timer h' = Some id
            /\ nth_error (timers h') id
               = Some {| t_interval := interval h; t_state := Waiting |}).
Proof.
  induction rs as [|record rs IH]; intros h Hb Hlow.
  - exists h. cbn [map run]. rewrite app_nil_r, newest_bounded by exact Hb.
    repeat split. intros Hne. destruct Hne. reflexivity.
  - inversion Hlow as [|r0 rs0 Hr Hrest]; subst.
    cbn [map run apply_op]. rewrite (emit_bounded record h Hb).
    replace (flushLevel h <=? levelno record) with false
      by (symmetry; apply Z.leb_gt; exact Hr).
    cbn [bind].
    match goal with
    | |- exists h', run _ ?x = _ /\ _ => set (h1 := x)
    end.
    assert (Hb1 : bounded h1).
    { unfold bounded, Queue.qsize, h1.
      cbn [buffer Queue.maxsize Queue.items].
      intros Hpos. apply kept_room; assumption. }
    destruct (IH h1 Hb1 Hrest) as (h' & Hrun & Hh & Hi & Hitems & Htimer).
    exists h'. split; [exact Hrun|]. split; [exact Hh|]. split; [exact Hi|].
    split.
    + rewrite Hitems. unfold h1. cbn [buffer Queue.maxsize Queue.items].
      rewrite <- app_assoc. cbn [app]. apply newest_kept. exact Hb.
    + intros _. destruct rs as [|r1 rs1].
      * cbn [map run] in Hrun. injection Hrun as <-.
        exists (List.length (after_cancel h)). unfold h1.
        cbn [_timer timers]. split; [reflexivity|].
        rewrite nth_error_app2 by lia. rewrite Nat.sub_diag. reflexivity.
      * apply Htimer. discriminate.
Qed.

End DebounceOrder.

(** X8.  Whatever calls a handler gets from its construction on, the
    target is given records in the order they were emitted, none of them
    twice and none that was not emitted: what has been forwarded, followed
    by what is still buffered, is the sequence of emitted records with
    some of them left out.  What the target had been given before stays
    in front. *)
Theorem forwarded_in_order (capacity : Z) (interval0 : float)
    (flushLevel0 : Z) (handled0 : list LogRecord)
    (ops : list DebounceHandler.op) :
  exists h fwd,
    DebounceHandler.run ops
      (DebounceHandler.__init__ capacity interval0 flushLevel0 handled0)
    = Ok h
    /\ DebounceHandler.handled h = handled0 ++ fwd
    /\ subseq (fwd ++ Queue.items (DebounceHandler.buffer h)) (emitted ops).
Proof.
  destruct (DebounceRuns.init_bounded capacity interval0 flushLevel0
              handled0) as [Hb _].
  destruct (DebounceOrder.run_passes ops _ Hb)
    as (h & fwd & Hrun & _ & Hh & Hs & _).
  exists h, fwd. split; [exact Hrun|]. split; [exact Hh | exact Hs].
Qed.

(** X9.  A handler built with a capacity of zero or less has an unbounded
    buffer and drops nothing: whatever calls it gets, what has been
    forwarded followed by what is still buffered is exactly the sequence
    of emitted records. *)
Theorem unbounded_loses_nothing (capacity : Z) (interval0 : float)
    (flushLevel0 : Z) (handled0 : list LogRecord)
    (ops : list DebounceHandler.op) :
  capacity <= 0 ->
  exists h fwd,
    DebounceHandler.run ops
      (DebounceHandler.__init__ capacity interval0 flushLevel0 handled0)
    = Ok h
    /\ DebounceHandler.handled h = handled0 ++ fwd
    /\ fwd ++ Queue.items (DebounceHandler.buffer h) = emitted ops.
Proof.
  intros Hcap.
  destruct (DebounceRuns.init_bounded capacity interval0 flushLevel0
              handled0) as [Hb _].
  destruct (DebounceOrder.run_passes ops _ Hb)
    as (h & fwd & Hrun & _ & Hh & _ & Hall).
  exists h, fwd. split; [exact Hrun|]. split; [exact Hh|].
  exact (Hall Hcap).
Qed.

(** Three quick records into a handler of capacity 0: all three are
    kept. *)
Lemma unbounded_loses_nothing_witness :
  exists h fwd,
    DebounceHandler.run
      [DebounceHandler.Emit (Samples.record INFO "quick one");
       DebounceHandler.Emit (Samples.record INFO "quick two");
       DebounceHandler.Emit (Samples.record INFO "slow one")]
      (DebounceHandler.__init__ 0 0.5%float WARN []) = Ok h
    /\ DebounceHandler.handled h = fwd
    /\ fwd ++ Queue.items (DebounceHandler.buffer h)
       = [Samples.record INFO "quick one"; Samples.record INFO "quick two";
          Samples.record INFO "slow one"].
Proof.
  exact (unbounded_loses_nothing 0 0.5%float WARN []
           [DebounceHandler.Emit (Samples.record INFO "quick one");
            DebounceHandler.Emit (Samples.record INFO "quick two");
            DebounceHandler.Emit (Samples.record INFO "slow one")]
           ltac:(lia)).
Defined.

(** X10.  Take a handler in any state it can get into from its
    constructor, and a burst of records below the flush level emitted one
    after the other with no timer running out in between.  Nothing is
    forwarded while the burst lasts; the buffer ends up with the newest
    [capacity] records of what it held and the burst (all of them when
    [capacity <= 0]); and when the timer of the last [emit] runs out,
    exactly those are forwarded, oldest first, and the buffer is empty. *)
Theorem burst_is_debounced (capacity : Z) (interval0 : float)
    (flushLevel0 : Z) (handled0 : list LogRecord)
    (ops : list DebounceHandler.op) (h : DebounceHandler.t)
    (rs : list LogRecord) :
  DebounceHandler.run ops
    (DebounceHandler.__init__ capacity interval0 flushLevel0 handled0)
  = Ok h ->
  rs <> [] ->
  Forall (fun r => levelno r < DebounceHandler.flushLevel h) rs ->
  exists h1 id h2,
    DebounceHandler.run (map DebounceHandler.Emit rs) h = Ok h1
    /\ DebounceHandler.handled h1 = DebounceHandler.handled h
    /\ Queue.items (DebounceHandler.buffer h1)
       = newest capacity (Queue.items (DebounceHandler.buffer h) ++ rs)
    /\ DebounceHandler._timer h1 = Some id
    /\ DebounceHandler.fire id h1 = Ok h2
    /\ DebounceHandler.handled h2
       = DebounceHandler.handled h
         ++ newest capacity (Queue.items (DebounceHandler.buffer h) ++ rs)
    /\ Queue.items (DebounceHandler.buffer h2) = [].
Proof.
  intros Hrun Hne Hlow.
  destruct (DebounceRuns.init_bounded capacity interval0 flushLevel0
              handled0) as [Hb0 _].
  destruct (DebounceRuns.run_preserves ops _ Hb0)
    as (h0 & Hrun0 & Hb & Hm & _).
  rewrite Hrun in Hrun0. injection Hrun0 as <-. cbn in Hm.
  destruct (DebounceOrder.burst_run rs h Hb Hlow)
    as (h1 & Hburst & Hh & _ & Hitems & Htimer).
  destruct (Htimer Hne) as (id & Hid & Hnth).
  rewrite Hm in Hitems.
  exists h1, id. eexists.
  split; [exact Hburst|]. split; [exact Hh|]. split; [exact Hitems|].
  split; [exact Hid|].
  unfold DebounceHandler.fire. rewrite Hnth.
  rewrite DebounceFacts.flush_drains.
  split; [reflexivity|].
  cbn [DebounceHandler.drained DebounceHandler.handled
       DebounceHandler.buffer DebounceHandler.set_timers Queue.items].
  rewrite Hh, Hitems. split; reflexivity.
Qed.

(** The first burst of the module's integration test on a handler of
    capacity 2: [quick one] is gone when the timer runs out. *)
Lemma burst_is_debounced_witness :
  exists h1 id h2,
    DebounceHandler.run
      (map DebounceHandler.Emit
         [Samples.record INFO "quick one"; Samples.record INFO "quick two";
          Samples.record INFO "slow one"])
      Samples.debounce2 = Ok h1
    /\ DebounceHandler._timer h1 = Some id
    /\ DebounceHandler.fire id h1 = Ok h2
    /\ DebounceHandler.handled h2
       = [Samples.record INFO "quick two"; Samples.record INFO "slow one"].
Proof.
  destruct (burst_is_debounced 2 0.5%float WARN [] [] Samples.debounce2
              [Samples.record INFO "quick one";
               Samples.record INFO "quick two";
               Samples.record INFO "slow one"]
              eq_refl ltac:(discriminate)
              ltac:(repeat constructor))
    as (h1 & id & h2 & Hrun & _ & _ & Hid & Hfire & Hh & _).
  exists h1, id, h2.
  split; [exact Hrun|]. split; [exact Hid|]. split; [exact Hfire|].
  rewrite Hh. reflexivity.
Defined.

(** ** TextHandler *)

Section HandlerFacts.

Variable getMessage : LogRecord -> string.

Lemma filter_loop_skipped (skips : list string) (record : LogRecord) :
  TextFilter.filter_loop getMessage skips record
  = negb (skipped getMessage skips record).
Proof.
  unfold skipped.
  induction skips as [|skip rest IH];
    cbn [TextFilter.filter_loop existsb]; [reflexivity|].
  destruct (String.prefix skip (getMessage record)); [reflexivity|].
  exact IH.
Qed.

Lemma handle_all_stream (skips : list string) (records : list LogRecord) :
  forall h,
    TextHandler.filters h = [TextFilter.mk skips] ->
    TextHandler.filters (handle_all getMessage h records)
    = [TextFilter.mk skips]
    /\ TextHandler.stream (handle_all getMessage h records)
       = TextHandler.stream h
         ++ map getMessage
              (List.filter (fun r => negb (skipped getMessage skips r))
                 records).
Proof.
  induction records as [|record records IH]; intros h Hf.
  - cbn. rewrite app_nil_r. split; [exact Hf | reflexivity].
  - unfold handle_all. cbn [fold_left List.filter].
    fold (handle_all getMessage
            (snd (TextHandler.handle getMessage h record)) records).
    unfold TextHandler.handle, TextHandler.passes. rewrite Hf.
    cbn [forallb]. unfold TextFilter.filter. cbn [TextFilter.skips].
    rewrite andb_true_r, filter_loop_skipped.
    destruct (negb (skipped getMessage skips record)); cbn [snd].
    + destruct (IH (TextHandler.emit getMessage h record) Hf) as [Hf' Hs].
      split; [exact Hf'|]. rewrite Hs. cbn [TextHandler.emit
                                             TextHandler.stream map].
      rewrite <- app_assoc. reflexivity.
    + exact (IH h Hf).
Qed.

Lemma skipped_empty_prefix (skips : list string) (record : LogRecord) :
  In ""%string skips -> skipped getMessage skips record = true.
Proof.
  intros Hin. unfold skipped. apply existsb_exists.
  exists ""%string. split; [exact Hin|].
  destruct (getMessage record); reflexivity.
Qed.

End HandlerFacts.

(** X11.  A [TextHandler] writes, of the records it is handed, exactly
    those whose rendered message starts with none of the skips, in the
    order they came and after what the stream already held.  With the
    default [skips=[]] every record is written; with an empty string
    among the skips none is, since every message starts with it. *)
Theorem text_handler_stream (getMessage : LogRecord -> string)
    (stream0 : list string) (skips : list string)
    (records : list LogRecord) :
  TextHandler.stream
    (handle_all getMessage (TextHandler.__init__ stream0 skips) records)
  = stream0
    ++ map getMessage
         (List.filter (fun r => negb (skipped getMessage skips r)) records)
  /\ TextHandler.stream
       (handle_all getMessage (TextHandler.__init__ stream0 []) records)
     = stream0 ++ map getMessage records
  /\ (In ""%string skips ->
      TextHandler.stream
        (handle_all getMessage (TextHandler.__init__ stream0 skips) records)
      = stream0).
Proof.
  split; [|split].
  - exact (proj2 (handle_all_stream getMessage skips records
                    (TextHandler.__init__ stream0 skips) eq_refl)).
  - rewrite (proj2 (handle_all_stream getMessage [] records
                      (TextHandler.__init__ stream0 []) eq_refl)).
    cbn [TextHandler.stream TextHandler.__init__]. do 2 f_equal.
    clear. induction records as [|r records IH]; [reflexivity|].
    cbn [List.filter]. rewrite IH. reflexivity.
  - intros Hin.
    rewrite (proj2 (handle_all_stream getMessage skips records
                      (TextHandler.__init__ stream0 skips) eq_refl)).
    cbn [TextHandler.stream TextHandler.__init__].
    replace (List.filter (fun r => negb (skipped getMessage skips r)) records)
      with (@nil LogRecord); [apply app_nil_r|].
    clear - Hin. induction records as [|r records IH]; [reflexivity|].
    cbn [List.filter]. rewrite (skipped_empty_prefix getMessage skips r Hin).
    exact IH.
Qed.

(** Three records, one of them with a skipped prefix; then the same three
    with an empty skip. *)
Lemma text_handler_stream_witness :
  TextHandler.stream
    (handle_all msg (TextHandler.__init__ [] ["DEBUG:"%string])
       [Samples.record INFO "quick one"; Samples.record ERROR "DEBUG: x";
        Samples.record INFO "slow one"])
  = ["quick one"%string; "slow one"%string]
  /\ TextHandler.stream
       (handle_all msg (TextHandler.__init__ [] ["DEBUG:"%string; ""%string])
          [Samples.record INFO "quick one"; Samples.record ERROR "DEBUG: x";
           Samples.record INFO "slow one"])
     = [].
Proof.
  split.
  - rewrite (proj1 (text_handler_stream msg [] ["DEBUG:"%string]
                      [Samples.record INFO "quick one";
                       Samples.record ERROR "DEBUG: x";
                       Samples.record INFO "slow one"])).
    reflexivity.
  - apply (proj2 (proj2 (text_handler_stream msg []
                           ["DEBUG:"%string; ""%string]
                           [Samples.record INFO "quick one";
                            Samples.record ERROR "DEBUG: x";
                            Samples.record INFO "slow one"]))).
    cbn [In]. right. left. reflexivity.
Defined.

(** ** Which frame [elapsed] and [eta] read *)

Lemma py_last_app {A : Type} (l : list A) (x : A) : py_last (l ++ [x]) = Ok x.
Proof.
  induction l as [|y l IH]; [reflexivity|].
  cbn [app py_last]. rewrite IH.
  destruct (l ++ [x]) eqn:E; [destruct l; discriminate | reflexivity].
Qed.

(** X12.  Right after a step has been entered, [elapsed()] counts from
    that step's checkpoint, as [elapsed(then=checkpoint)] does, whereas
    [eta] counts from the start of the outermost active step, which is
    that checkpoint only when no step was active before.  Each reads the
    clock once and changes nothing else. *)
Theorem elapsed_from_innermost (K : Type)
    (clock : K -> result datetime * K) (m : string) (a : dict)
    (ex : option dict) (lg : EventLogger.t K) (fr : EventLogger.frame)
    (st : EventLogger.LogState) (lg1 : EventLogger.t K) (now : datetime)
    (k2 : K) :
  EventLogger.step_enter clock m a ex lg = (Ok (fr, st), lg1) ->
  clock (EventLogger._clock lg1) = (Ok now, k2) ->
  EventLogger.elapsed clock None lg1
  = (Ok (EventLogger.checkpoint fr,
         dt_sub now (EventLogger.checkpoint fr),
         int_of_float
           (PrimFloat.mul
              (total_seconds (dt_sub now (EventLogger.checkpoint fr)))
              1000000)),
     EventLogger.set_clock lg1 k2)
  /\ EventLogger.elapsed clock None lg1
     = EventLogger.elapsed clock (Some (EventLogger.checkpoint fr)) lg1
  /\ forall pct,
      EventLogger.eta clock pct lg1
      = (let t0 := since (EventLogger._step lg) (EventLogger.checkpoint fr) in
         let* f := eta_factor pct in
         let* x := td_mul_float (dt_sub now t0) f in
         dt_add t0 x,
         EventLogger.set_clock lg1 k2).
Proof.
  intros He Hc2.
  destruct (step_enter_cases clock m a ex lg)
    as [(cp & k1 & rb & _ & _ & He1 & _)
       | [(cp & k1 & _ & _ & He1) | (r0 & k0 & He1 & Hno & _)]];
    rewrite He in He1;
    [| discriminate | exfalso; apply (Hno (fr, st)); congruence].
  assert (Hfr : fr = {| EventLogger.checkpoint := cp;
                        EventLogger.step_ixs :=
                          map fst (EventLogger._step lg)
                          ++ [EventLogger._seq lg + 1] |}) by congruence.
  assert (Hs : EventLogger._step lg1
               = EventLogger._step lg ++ [(EventLogger._seq lg + 1, cp)]).
  { assert (Hlg : lg1 = {| EventLogger.name := EventLogger.name lg;
                           EventLogger.event := EventLogger.event lg;
                           EventLogger._clock := k1;
                           EventLogger._seq := EventLogger._seq lg + 1;
                           EventLogger._step :=
                             EventLogger._step lg
                             ++ [(EventLogger._seq lg + 1, cp)];
                           EventLogger.logged :=
                             EventLogger.logged lg ++ [rb] |})
      by congruence.
    rewrite Hlg. reflexivity. }
  rewrite Hfr. cbn [EventLogger.checkpoint].
  assert (Hel : EventLogger.elapsed clock None lg1
                = EventLogger.elapsed clock (Some cp) lg1).
  { unfold EventLogger.elapsed. rewrite Hs, py_last_app. reflexivity. }
  split; [|split].
  - rewrite Hel. unfold EventLogger.elapsed, EventLogger.call_clock.
    rewrite Hc2. reflexivity.
  - exact Hel.
  - intros pct.
    destruct (EventLogger._step lg) as [|[q0 t0] rest] eqn:Hs0.
    + exact (eta_unfold clock lg1 _ cp [] now k2 pct Hs Hc2).
    + exact (eta_unfold clock lg1 q0 t0 _ now k2 pct Hs Hc2).
Qed.

(** A first step under a clock that stands still: no time has elapsed. *)
Lemma elapsed_from_innermost_witness :
  fst (EventLogger.elapsed (stopped_clock MockIO.default_now) None
         (snd (EventLogger.step_enter (stopped_clock MockIO.default_now)
                 "load" [] None (EventLogger.__init__ "log1" [] tt))))
  = Ok (MockIO.default_now, 0, 0).
Proof.
  exact (f_equal fst
           (proj1 (elapsed_from_innermost unit
                     (stopped_clock MockIO.default_now) "load" [] None
                     (EventLogger.__init__ "log1" [] tt) _ _ _
                     MockIO.default_now tt eq_refl eq_refl))).
Defined.

(** ** A direct [start()] *)

(** X13.  [start()] replaces the timer in [_timer] without cancelling it.
    Called on a handler whose timer is waiting, as the module's
    integration test does right after the constructor, it leaves that
    timer waiting where no later [emit] can cancel it; when it runs out
    it forwards whatever is buffered, quiet interval or not. *)
Theorem direct_start_leaves_orphan (capacity : Z) (interval0 : float)
    (flushLevel0 : Z) (handled0 : list LogRecord)
    (ops : list DebounceHandler.op) (h : DebounceHandler.t) (id : nat)
    (tm : DebounceHandler.Timer) (record : LogRecord) :
  DebounceHandler.run ops
    (DebounceHandler.__init__ capacity interval0 flushLevel0 handled0)
  = Ok h ->
  DebounceHandler._timer h = Some id ->
  nth_error (DebounceHandler.timers h) id = Some tm ->
  DebounceHandler.t_state tm = DebounceHandler.Waiting ->
  levelno record < DebounceHandler.flushLevel h ->
  exists h1 h2,
    DebounceHandler.emit record (DebounceHandler.start h) = Ok h1
    /\ DebounceHandler._timer h1
       = Some (S (List.length (DebounceHandler.timers h)))
    /\ nth_error (DebounceHandler.timers h1) id = Some tm
    /\ DebounceHandler.handled h1 = DebounceHandler.handled h
    /\ DebounceHandler.fire id h1 = Ok h2
    /\ DebounceHandler.handled h2
       = DebounceHandler.handled h ++ DebounceHandler.kept h ++ [record]
    /\ Queue.items (DebounceHandler.buffer h2) = [].
Proof.
  intros Hrun Hid Hnth Hw Hlow.
  destruct tm as [i s]. cbn in Hw. subst s.
  destruct (DebounceRuns.init_bounded capacity interval0 flushLevel0
              handled0) as [Hb0 _].
  destruct (DebounceRuns.run_preserves ops _ Hb0)
    as (h0 & Hrun0 & Hb & _ & _).
  rewrite Hrun in Hrun0. injection Hrun0 as <-.
  assert (Hbs : DebounceHandler.bounded (DebounceHandler.start h))
    by exact Hb.
  assert (Hlt : (id < List.length (DebounceHandler.timers h))%nat)
    by (apply nth_error_Some; congruence).
  rewrite (DebounceFacts.emit_bounded record _ Hbs).
  replace (DebounceHandler.flushLevel (DebounceHandler.start h)
           <=? levelno record) with false
    by (symmetry; apply Z.leb_gt; exact Hlow).
  assert (Hac : DebounceHandler.after_cancel (DebounceHandler.start h)
                = DebounceHandler.timers h
                  ++ [{| DebounceHandler.t_interval :=
                           DebounceHandler.interval h;
                         DebounceHandler.t_state :=
                           DebounceHandler.Cancelled |}]).
  { unfold DebounceHandler.after_cancel, DebounceHandler.start.
    cbn [DebounceHandler._timer DebounceHandler.timers
         DebounceHandler.set_timer DebounceHandler.set_timers].
    generalize (DebounceHandler.timers h). intros l.
    induction l as [|x l IH]; [reflexivity|].
    cbn [List.length app DebounceHandler.update_nth]. rewrite IH.
    reflexivity. }
  assert (Hnth1 : nth_error
                    (DebounceHandler.after_cancel (DebounceHandler.start h)
                     ++ [{| DebounceHandler.t_interval :=
                              DebounceHandler.interval
                                (DebounceHandler.start h);
                            DebounceHandler.t_state :=
                              DebounceHandler.Waiting |}]) id
                  = Some {| DebounceHandler.t_interval := i;
                            DebounceHandler.t_state :=
                              DebounceHandler.Waiting |}).
  { rewrite Hac, <- app_assoc, nth_error_app1 by exact Hlt. exact Hnth. }
  eexists _, _. split; [reflexivity|].
  cbn [DebounceHandler._timer DebounceHandler.timers
       DebounceHandler.handled].
  split; [rewrite Hac, length_app; cbn [List.length]; f_equal; lia|].
  split; [exact Hnth1|]. split; [reflexivity|].
  unfold DebounceHandler.fire. cbn [DebounceHandler.timers].
  rewrite Hnth1.
  rewrite DebounceFacts.flush_drains. split; [reflexivity|].
  split; reflexivity.
Qed.

(** The handler of the integration test, right after [d.start()]: the
    constructor's timer is number 0, and it forwards the first record
    emitted when it runs out. *)
Lemma direct_start_leaves_orphan_witness :
  exists h1 h2,
    DebounceHandler.emit (Samples.record INFO "quick one")
      (DebounceHandler.start Samples.debounce2) = Ok h1
    /\ DebounceHandler._timer h1 = Some 2%nat
    /\ DebounceHandler.fire 0 h1 = Ok h2
    /\ DebounceHandler.handled h2 = [Samples.record INFO "quick one"].
Proof.
  destruct (direct_start_leaves_orphan 2 0.5%float WARN [] []
              Samples.debounce2 0%nat
              {| DebounceHandler.t_interval := 0.5%float;
                 DebounceHandler.t_state := DebounceHandler.Waiting |}
              (Samples.record INFO "quick one")
              eq_refl eq_refl eq_refl eq_refl eq_refl)
    as (h1 & h2 & He & Ht & _ & _ & Hf & Hh & _).
  exists h1, h2.
  split; [exact He|]. split; [exact Ht|]. split; [exact Hf|].
  rewrite Hh. reflexivity.
Defined.

